(** * The retrieval-augmented ingestion and query service of [task4/main.js]

    A shallow embedding of the chunker, the batched embedder, the chunk
    identity, the write to the vector index and the three HTTP handlers
    ([/upload], [/prompt], [/rechunk]), followed by the properties the
    specification states about them.

    Conventions of the embedding.
    - A JavaScript string is a list of code units.  The development works
      with the code units 0..255 ([ascii], read as Latin-1); the regular
      expression class [\s] and [String.prototype.trim] use the same set of
      white space, which in this range is 9..13, 32 and 160.
    - A JavaScript number that the handlers compute with is [NaN] or an
      integer of magnitude below 10^21, the integers that [String] prints
      in full; fractions and larger numbers are outside the embedding.
      The components of an embedding are opaque bit patterns.
    - The external collaborators (embedding provider, vector index,
      generative model, file system) are arguments of the functions that
      call them. *)

From Stdlib Require Import ZArith NArith List Ascii String Lia Bool.
From Stdlib Require Import DecimalString DecimalNat.
From stdpp Require Import base gmap strings list fin_maps.

Open Scope list_scope.

(* ===================================================================== *)
(** ** Strings *)
(* ===================================================================== *)

Module Str.

Abbreviation str := (list ascii).

Definition lit (s : string) : str := list_ascii_of_string s.

(** [\s] of the regular expressions and the set stripped by [trim]. *)
Definition isWhiteSpace (c : ascii) : bool :=
  let n := N_of_ascii c in
  (((9 <=? n) && (n <=? 13)) || (n =? 32) || (n =? 160))%N.

(** The class [[.!?]] of the sentence splitter. *)
Definition isTerminator (c : ascii) : bool :=
  let n := N_of_ascii c in
  ((n =? 46) || (n =? 33) || (n =? 63))%N.

Definition space : ascii := " "%char.

(** [s.replace(/\s+/g, " ")]: [inrun] tells that the previous code unit
    belonged to the run of white space being replaced. *)
Fixpoint collapse (inrun : bool) (s : str) : str :=
  match s with
  | [] => []
  | c :: r =>
      if isWhiteSpace c
      then (if inrun then collapse true r else space :: collapse true r)
      else c :: collapse false r
  end.

Definition normalizeWhitespace (s : str) : str := collapse false s.

(** [s.split(/(?<=[.!?])\s+/)].  [afterTerm]: the code unit before the
    current position is one of [.!?] (the look-behind); [insep]: a match
    of [\s+] is being consumed; [piece]: the current piece, reversed.
    The piece after the last match is always returned, also when it is
    empty. *)
Fixpoint splitLoop (afterTerm insep : bool) (piece : str) (s : str)
  : list str :=
  match s with
  | [] => [rev piece]
  | c :: r =>
      if isWhiteSpace c then
        if insep then splitLoop false true [] r
        else if afterTerm then rev piece :: splitLoop false true [] r
        else splitLoop false false (c :: piece) r
      else splitLoop (isTerminator c) false (c :: piece) r
  end.

Definition splitSentences (s : str) : list str := splitLoop false false [] s.

Fixpoint trimStart (s : str) : str :=
  match s with
  | [] => []
  | c :: r => if isWhiteSpace c then trimStart r else s
  end.

Definition trimEnd (s : str) : str := rev (trimStart (rev s)).

Definition trim (s : str) : str := trimEnd (trimStart s).

(** [s.slice(-n)] for a positive [n]: the last [n] code units, the whole
    string when it is shorter. *)
Definition sliceLast (n : nat) (s : str) : str := skipn (length s - n) s.

(** Truthiness of a string. *)
Definition truthy (s : str) : bool :=
  match s with [] => false | _ => true end.

End Str.
Import Str.

(* ===================================================================== *)
(** ** Numbers *)
(* ===================================================================== *)

Inductive number : Type :=
| NaN
| Num (z : Z).

Definition num_gt (a b : number) : bool :=
  match a, b with
  | Num x, Num y => (y <? x)%Z
  | _, _ => false
  end.

Definition num_truthy (a : number) : bool :=
  match a with
  | NaN => false
  | Num z => negb (z =? 0)%Z
  end.

(** [a || b] on numbers. *)
Definition num_or (a b : number) : number :=
  if num_truthy a then a else b.

(* ===================================================================== *)
(** ** Chunking *)
(* ===================================================================== *)

(** One iteration of the [for (const sentence of sentences)] loop of
    [chunkText]; the state is [(chunks, currentChunk)]. *)
Definition chunkStep (size overlap : number) (st : list str * str)
  (sentence : str) : list str * str :=
  let '(chunks, currentChunk) := st in
  let '(chunks1, current1) :=
    if num_gt (Num (Z.of_nat (length (currentChunk ++ sentence)))) size then
      let chunks' :=
        if truthy (trim currentChunk) then chunks ++ [trim currentChunk]
        else chunks in
      let current' :=
        match overlap with
        | Num o =>
            if (0 <? o)%Z && (0 <? length chunks')%nat
            then trim (sliceLast (Z.to_nat o) currentChunk)
            else []
        | NaN => []
        end in
      (chunks', current')
    else (chunks, currentChunk) in
  (chunks1, current1 ++ sentence ++ [space]).

Definition sentencesOf (text : str) : list str :=
  splitSentences (normalizeWhitespace text).

Definition chunkLoop (size overlap : number) (sentences : list str)
  : list str * str :=
  fold_left (chunkStep size overlap) sentences ([], []).

Definition chunkText (text : str) (size overlap : number) : list str :=
  let '(chunks, currentChunk) := chunkLoop size overlap (sentencesOf text) in
  if truthy (trim currentChunk) then chunks ++ [trim currentChunk]
  else chunks.

(** The records of the data model. *)
Record Document : Type := mkDocument {
  doc_filename : str;
  doc_category : str;
  doc_content : str
}.

Record Chunk : Type := mkChunk {
  filename : str;
  category : str;
  chunkIndex : nat;
  content : str
}.

(** [chunks.forEach((chunk, index) => allChunks.push({...}))] for one
    document. *)
Definition chunksOfDocument (size overlap : number) (doc : Document)
  : list Chunk :=
  imap (fun index chunk =>
          mkChunk (doc_filename doc) (doc_category doc) index chunk)
       (chunkText (doc_content doc) size overlap).

Definition chunkAllDocuments (documents : list Document)
  (size overlap : number) : list Chunk :=
  concat (map (chunksOfDocument size overlap) documents).

(* ===================================================================== *)
(** ** Embedding *)
(* ===================================================================== *)

(** A component of an embedding: the bit pattern of a [Float32Array]
    element.  The code copies and stores components and never computes
    with them. *)
Definition vector : Type := list N.

(** What one call of the embedding provider does: it throws, or returns a
    value without [ort_tensor], or returns a tensor whose [cpuData] is
    present or not ([Array.from(undefined)] throws). *)
Inductive ProviderResult : Type :=
| ProviderThrows
| ProviderNoTensor
| ProviderTensor (cpuData : option vector).

Record EmbeddedChunk : Type := mkEmbedded {
  source : Chunk;
  embedding : option vector
}.

Definition EMBED_BATCH_SIZE : nat := 16.

(** [arr.slice(i, j)]. *)
Definition slice {A : Type} (i j : nat) (l : list A) : list A :=
  firstn (j - i) (skipn i l).

(** A computation that calls the provider: it threads the provider's
    state [P] through the calls, in call order. *)
Definition Prov (P A : Type) : Type := P -> A * P.

Definition ret {P A : Type} (a : A) : Prov P A := fun p => (a, p).

Definition bind {P A B : Type} (m : Prov P A) (k : A -> Prov P B)
  : Prov P B :=
  fun p => let '(a, p') := m p in k a p'.

Declare Scope prov_scope.
Delimit Scope prov_scope with prov.
Notation "x <- m ;; k" := (bind m (fun x => k))
  (at level 100, m at next level, right associativity) : prov_scope.

Section Embedder.

Context {P : Type}.
Variable embedder : str -> Prov P ProviderResult.

(** [embedChunk]: [null] ([None]) when the provider throws, returns no
    tensor, or [Array.from] throws; the copied vector otherwise. *)
Definition embedChunk (text : str) : Prov P (option vector) :=
  (r <- embedder text ;;
   ret (match r with
        | ProviderTensor (Some cpuData) => Some cpuData
        | _ => None
        end))%prov.

(** [Promise.all(batch.map(c => embedChunk(c.content)))]: the calls are
    issued in the order of the batch. *)
Fixpoint embedBatch (batch : list Chunk) : Prov P (list (option vector)) :=
  match batch with
  | [] => ret []
  | c :: rest =>
      (v <- embedChunk (content c) ;;
       vs <- embedBatch rest ;;
       ret (v :: vs))%prov
  end.

(** [vectors.forEach((vector, idx) => { if (!vector) return;
    embedded.push({...batch[idx], embedding: vector}) })]: an array is
    truthy also when it is empty, so only [null] is skipped. *)
Fixpoint pushEmbedded (batch : list Chunk) (vectors : list (option vector))
  : list EmbeddedChunk :=
  match batch, vectors with
  | c :: batch', Some v :: vectors' =>
      mkEmbedded c (Some v) :: pushEmbedded batch' vectors'
  | _ :: batch', None :: vectors' => pushEmbedded batch' vectors'
  | _, _ => []
  end.

(** The loop [for (let i = 0; i < chunks.length; i += EMBED_BATCH_SIZE)];
    [fuel] bounds the number of iterations. *)
Fixpoint embedLoop (fuel i : nat) (chunks : list Chunk)
  (embedded : list EmbeddedChunk) : Prov P (option (list EmbeddedChunk)) :=
  if (i <? length chunks)%nat then
    match fuel with
    | O => ret None
    | S fuel' =>
        let batch := slice i (i + EMBED_BATCH_SIZE) chunks in
        (vectors <- embedBatch batch ;;
         embedLoop fuel' (i + EMBED_BATCH_SIZE) chunks
                   (embedded ++ pushEmbedded batch vectors))%prov
    end
  else ret (Some embedded).

Definition embedAllChunks (chunks : list Chunk)
  : Prov P (option (list EmbeddedChunk)) :=
  embedLoop (length chunks) 0 chunks [].

End Embedder.

(* ===================================================================== *)
(** ** SHA-1 *)
(* ===================================================================== *)

(** [crypto.createHash("sha1").update(raw).digest("hex")]: the string is
    encoded as UTF-8 and hashed with SHA-1 (FIPS 180-4); the digest is
    printed as 40 lower-case hexadecimal digits.  Words are integers with
    the wrap-around at 2^32 written out. *)
Module Sha1.

Local Open Scope Z_scope.

Definition mask32 (x : Z) : Z := Z.land x 4294967295.

Definition add32 (a b : Z) : Z := mask32 (a + b).

Definition rotl32 (n x : Z) : Z :=
  mask32 (Z.lor (Z.shiftl x n) (Z.shiftr x (32 - n))).

(** UTF-8 of a code unit below 256. *)
Definition utf8 (c : ascii) : list Z :=
  let n := Z.of_N (N_of_ascii c) in
  if n <? 128 then [n]
  else [Z.lor 192 (Z.shiftr n 6); Z.lor 128 (Z.land n 63)].

Definition encode (s : str) : list Z := concat (map utf8 s).

(** The big-endian bytes of [x], [n] of them. *)
Fixpoint bigEndian (n : nat) (x : Z) : list Z :=
  match n with
  | O => []
  | S n' => Z.land (Z.shiftr x (8 * Z.of_nat n')) 255 :: bigEndian n' x
  end.

(** Message padding: the bit 1, zeros up to 56 modulo 64, the bit length
    on 64 bits. *)
Definition pad (msg : list Z) : list Z :=
  let len := length msg in
  let zeros := ((64 - (len + 9) mod 64) mod 64)%nat in
  msg ++ [128] ++ repeat 0 zeros ++ bigEndian 8 (8 * Z.of_nat len).

Fixpoint groups {A : Type} (n fuel : nat) (l : list A) : list (list A) :=
  match fuel, l with
  | _, [] => []
  | O, _ => []
  | S fuel', _ => firstn n l :: groups n fuel' (skipn n l)
  end.

Definition wordOf (bytes : list Z) : Z :=
  fold_left (fun acc b => Z.lor (Z.shiftl acc 8) b) bytes 0.

Definition wordsOf (block : list Z) : list Z :=
  map wordOf (groups 4 (length block) block).

Definition State : Type := (Z * Z * Z * Z * Z)%type.

Definition roundFunction (t : nat) (b c d : Z) : Z * Z :=
  if (t <? 20)%nat then
    (Z.lor (Z.land b c) (Z.land (mask32 (Z.lnot b)) d), 1518500249)
  else if (t <? 40)%nat then
    (Z.lxor (Z.lxor b c) d, 1859775393)
  else if (t <? 60)%nat then
    (Z.lor (Z.lor (Z.land b c) (Z.land b d)) (Z.land c d), 2400959708)
  else
    (Z.lxor (Z.lxor b c) d, 3395469782).

(** [n] rounds from round [t]; [window] holds the sixteen words
    W(t) .. W(t+15) of the message schedule. *)
Fixpoint rounds (n t : nat) (window : list Z) (st : State) : State :=
  match n with
  | O => st
  | S n' =>
      let '(a, b, c, d, e) := st in
      let w := nth 0 window 0 in
      let '(f, k) := roundFunction t b c d in
      let temp := add32 (add32 (add32 (add32 (rotl32 5 a) f) e) k) w in
      let next :=
        rotl32 1 (Z.lxor (Z.lxor (Z.lxor (nth 13 window 0) (nth 8 window 0))
                                 (nth 2 window 0)) w) in
      rounds n' (S t) (tl window ++ [next]) (temp, a, rotl32 30 b, c, d)
  end.

Definition compress (h : State) (block : list Z) : State :=
  let '(h0, h1, h2, h3, h4) := h in
  let '(a, b, c, d, e) := rounds 80 0 (wordsOf block) h in
  (add32 h0 a, add32 h1 b, add32 h2 c, add32 h3 d, add32 h4 e).

Definition initial : State :=
  (1732584193, 4023233417, 2562383102, 271733878, 3285377520).

Definition digest (msg : list Z) : State :=
  let padded := pad msg in
  fold_left compress (groups 64 (length padded) padded) initial.

Definition hexDigit (x : Z) : ascii :=
  ascii_of_N (Z.to_N (if x <? 10 then 48 + x else 87 + x)).

Definition nibble (w : Z) (i : Z) : ascii :=
  hexDigit (Z.land (Z.shiftr w (4 * i)) 15).

Definition hex32 (w : Z) : str :=
  [nibble w 7; nibble w 6; nibble w 5; nibble w 4;
   nibble w 3; nibble w 2; nibble w 1; nibble w 0].

Definition hex (s : str) : str :=
  let '(h0, h1, h2, h3, h4) := digest (encode s) in
  hex32 h0 ++ hex32 h1 ++ hex32 h2 ++ hex32 h3 ++ hex32 h4.

End Sha1.

(* ===================================================================== *)
(** ** Chunk identity *)
(* ===================================================================== *)

(** [String(n)] for a non-negative integer. *)
Definition natToString (n : nat) : str :=
  list_ascii_of_string (NilZero.string_of_uint (Nat.to_uint n)).

Definition bar : ascii := "|"%char.

(** [`${chunk.filename}|${chunk.category}|${chunk.chunkIndex}`]. *)
Definition rawKey (f c : str) (i : nat) : str :=
  f ++ [bar] ++ c ++ [bar] ++ natToString i.

Definition makeChunkId (chunk : Chunk) : str :=
  Sha1.hex (rawKey (filename chunk) (category chunk) (chunkIndex chunk)).

(* ===================================================================== *)
(** ** The vector index and the write step *)
(* ===================================================================== *)

Record Metadata : Type := mkMetadata {
  m_filename : str;
  m_category : str;
  m_chunkIndex : nat;
  m_model : str
}.

Record StoredRecord : Type := mkStored {
  r_embedding : vector;
  r_document : str;
  r_metadata : Metadata
}.

(** The argument of [collection.add]: four parallel arrays. *)
Record AddRequest : Type := mkAdd {
  ids : list str;
  embeddings : list vector;
  documents : list str;
  metadatas : list Metadata
}.

Abbreviation Index := (gmap str StoredRecord).

(** What the index does with an identifier it already holds. *)
Inductive IdPolicy : Type :=
| Overwrite
| KeepExisting.

Definition putRecord (policy : IdPolicy) (index : Index)
  (entry : str * StoredRecord) : Index :=
  match policy with
  | Overwrite => <[entry.1 := entry.2]> index
  | KeepExisting =>
      match index !! entry.1 with
      | Some _ => index
      | None => <[entry.1 := entry.2]> index
      end
  end.

Fixpoint entriesOf (ids : list str) (embeddings : list vector)
  (documents : list str) (metadatas : list Metadata)
  : list (str * StoredRecord) :=
  match ids, embeddings, documents, metadatas with
  | i :: ids', e :: embeddings', d :: documents', m :: metadatas' =>
      (i, mkStored e d m) :: entriesOf ids' embeddings' documents' metadatas'
  | _, _, _, _ => []
  end.

(** Modelled from the spec: the vector index is the external [chromadb]
    collection, which is not part of the repository.  The specification
    gives its write as [upsert(ids, vectors, documents, metadatas)] over
    arrays of equal length, insert-or-overwrite by identifier, applied in
    the order of the arrays ([Overwrite]).  [KeepExisting] is the other
    reading of a client's [add], which leaves a record whose identifier is
    already present as it is. *)
Definition collection_add (policy : IdPolicy) (req : AddRequest)
  (index : Index) : Index :=
  fold_left (putRecord policy)
    (entriesOf (ids req) (embeddings req) (documents req) (metadatas req))
    index.

Definition modelTag : str := lit "all-MiniLM-L6-v2".

(** The body of [for (const chunk of embeddedChunks)] in [saveToChroma]:
    a chunk without embedding, or with an empty one, is passed over. *)
Definition pushChunk (req : AddRequest) (chunk : EmbeddedChunk)
  : AddRequest :=
  match embedding chunk with
  | None => req
  | Some [] => req
  | Some v =>
      mkAdd (ids req ++ [makeChunkId (source chunk)])
            (embeddings req ++ [v])
            (documents req ++ [content (source chunk)])
            (metadatas req ++
               [mkMetadata (filename (source chunk))
                           (category (source chunk))
                           (chunkIndex (source chunk))
                           modelTag])
  end.

Definition collectArrays (embeddedChunks : list EmbeddedChunk) : AddRequest :=
  fold_left pushChunk embeddedChunks (mkAdd [] [] [] []).

(** How a call of [saveToChroma] ends. *)
Inductive SaveResult : Type :=
| SaveSkipped
| SaveThrew (message : str)
| SaveAdded (req : AddRequest).

Definition arraysMessage : str := lit "Chroma data arrays mismatch or empty".

(** [saveToChroma] up to the call of [collection.add]. *)
Definition saveRequest (embeddedChunks : list EmbeddedChunk) : SaveResult :=
  if (length embeddedChunks =? 0)%nat then SaveSkipped
  else
    let req := collectArrays embeddedChunks in
    if (length (ids req) =? 0)%nat
       || negb (length (ids req) =? length (embeddings req))%nat
       || negb (length (ids req) =? length (metadatas req))%nat
       || negb (length (ids req) =? length (documents req))%nat
    then SaveThrew arraysMessage
    else SaveAdded req.

Definition saveToChroma (policy : IdPolicy)
  (embeddedChunks : list EmbeddedChunk) (index : Index)
  : SaveResult * Index :=
  match saveRequest embeddedChunks with
  | SaveAdded req => (SaveAdded req, collection_add policy req index)
  | r => (r, index)
  end.

(* ===================================================================== *)
(** ** Request values and [parseInt] *)
(* ===================================================================== *)

(** The values a field of a JSON body, or an environment variable, takes
    in this development: [undefined], [null], booleans, the numbers above
    and strings.  Arrays and objects are outside the embedding. *)
Inductive JsValue : Type :=
| JUndefined
| JNull
| JBool (b : bool)
| JNumber (n : number)
| JString (s : str).

Definition js_truthy (v : JsValue) : bool :=
  match v with
  | JUndefined | JNull => false
  | JBool b => b
  | JNumber n => num_truthy n
  | JString s => truthy s
  end.

(** [String(z)] for an integer of magnitude below 10^21; from there on
    JavaScript prints an exponent, which is not modelled. *)
Definition intToString (z : Z) : str :=
  match z with
  | Zneg p => "-"%char :: natToString (Pos.to_nat p)
  | _ => natToString (Z.to_nat z)
  end.

Definition toString (v : JsValue) : str :=
  match v with
  | JUndefined => lit "undefined"
  | JNull => lit "null"
  | JBool true => lit "true"
  | JBool false => lit "false"
  | JNumber NaN => lit "NaN"
  | JNumber (Num z) => intToString z
  | JString s => s
  end.

(** The value of a digit in radix [radix] (10 or 16). *)
Definition digitValue (radix : Z) (c : ascii) : option Z :=
  let n := Z.of_N (N_of_ascii c) in
  let v :=
    if (48 <=? n)%Z && (n <=? 57)%Z then Some (n - 48)%Z
    else if (97 <=? n)%Z && (n <=? 102)%Z then Some (n - 87)%Z
    else if (65 <=? n)%Z && (n <=? 70)%Z then Some (n - 55)%Z
    else None in
  match v with
  | Some d => if (d <? radix)%Z then Some d else None
  | None => None
  end.

(** The longest prefix of digits, read in radix [radix]; [acc] is the
    value read so far, [None] before the first digit. *)
Fixpoint readDigits (radix : Z) (acc : option Z) (s : str) : option Z :=
  match s with
  | [] => acc
  | c :: r =>
      match digitValue radix c with
      | Some d =>
          readDigits radix
            (Some (match acc with Some a => a * radix + d | None => d end)%Z) r
      | None => acc
      end
  end.

(** [parseInt(s)] on a string, without radix argument: leading white
    space, a sign, the prefix [0x] or [0X], then digits; [NaN] without a
    digit. *)
Definition parseIntString (s : str) : number :=
  let s1 := trimStart s in
  let '(sign, s2) :=
    match s1 with
    | c :: r =>
        if Ascii.eqb c "-"%char then ((-1)%Z, r)
        else if Ascii.eqb c "+"%char then (1%Z, r)
        else (1%Z, s1)
    | [] => (1%Z, s1)
    end in
  let '(radix, s3) :=
    match s2 with
    | z :: x :: r =>
        if Ascii.eqb z "0"%char
           && (Ascii.eqb x "x"%char || Ascii.eqb x "X"%char)
        then (16%Z, r) else (10%Z, s2)
    | _ => (10%Z, s2)
    end in
  match readDigits radix None s3 with
  | Some m => Num (sign * m)
  | None => NaN
  end.

Definition parseInt (v : JsValue) : number := parseIntString (toString v).

(** [process.env]: the two variables the chunker reads. *)
Record Env : Type := mkEnv {
  env_CHUNK_LENGTH : JsValue;
  env_CHUNK_OVERLAP : JsValue
}.

(** [a || b] where [b] is a string literal. *)
Definition orString (v : JsValue) (dflt : str) : JsValue :=
  if js_truthy v then v else JString dflt.

(** The module constants [CHUNK_LENGTH] and [CHUNK_OVERLAP]. *)
Definition CHUNK_LENGTH (env : Env) : number :=
  parseInt (orString (env_CHUNK_LENGTH env) (lit "500")).

Definition CHUNK_OVERLAP (env : Env) : number :=
  parseInt (orString (env_CHUNK_OVERLAP env) (lit "50")).

(* ===================================================================== *)
(** ** Responses *)
(* ===================================================================== *)

(** An element of [sources] in the answer of [/prompt]. *)
Record SourceRef : Type := mkSource {
  s_filename : JsValue;
  s_category : JsValue;
  s_chunkIndex : JsValue
}.

(** The JSON bodies the handlers send. *)
Inductive Body : Type :=
| BError (error : str)
| BErrorDetails (error details : str)
| BMessage (message : str)
| BAnswer (answer : str) (sources : list SourceRef)
| BRechunk (message : str) (documentCount chunkCount : nat)
    (chunkLength chunkOverlap : number).

Record Response : Type := mkResponse {
  status : nat;
  body : Body
}.

(** [res.json(b)]: the status stays 200. *)
Definition json (b : Body) : Response := mkResponse 200 b.

(* ===================================================================== *)
(** ** The context and the prompt of [/prompt] *)
(* ===================================================================== *)

(** A metadata object returned by the index: its fields as they come. *)
Record QueryMeta : Type := mkQueryMeta {
  qm_filename : JsValue;
  qm_category : JsValue;
  qm_chunkIndex : JsValue
}.

(** [{}]. *)
Definition emptyMeta : QueryMeta := mkQueryMeta JUndefined JUndefined JUndefined.

(** [v || "..."] inside a template literal. *)
Definition orLiteral (v : JsValue) (dflt : str) : str :=
  if js_truthy v then toString v else dflt.

(** [v ?? "..."] inside a template literal. *)
Definition coalesceLiteral (v : JsValue) (dflt : str) : str :=
  match v with
  | JUndefined | JNull => dflt
  | _ => toString v
  end.

Definition newline : ascii := "010"%char.

Definition dashes : str := repeat "-"%char 48.

(** The text appended to [contextText] for one retrieved document;
    [metas[idx] || {}] is [meta]. *)
Definition contextBlock (doc : JsValue) (meta : QueryMeta) : str :=
  lit "Source: " ++ orLiteral (qm_filename meta) (lit "unknown") ++ [newline]
  ++ lit "Category: " ++ orLiteral (qm_category meta) (lit "unknown")
  ++ [newline]
  ++ lit "Chunk: " ++ coalesceLiteral (qm_chunkIndex meta) (lit "?")
  ++ [newline; newline]
  ++ toString doc ++ [newline] ++ dashes ++ [newline; newline; newline].

(** [metas[idx] || {}]: a missing or [null] entry gives the empty object. *)
Definition metaAt (metas : list (option QueryMeta)) (idx : nat) : QueryMeta :=
  match metas !! idx with
  | Some (Some m) => m
  | _ => emptyMeta
  end.

(** [docs.forEach((doc, idx) => { contextText += ... })]. *)
Definition buildContext (docs : list JsValue) (metas : list (option QueryMeta))
  : str :=
  concat (imap (fun idx doc => contextBlock doc (metaAt metas idx)) docs).

Definition noDocuments : str := lit "No relevant documents found.".

(** The value of [contextText] when the generator is called. *)
Definition contextOf (docs : list JsValue) (metas : list (option QueryMeta))
  : str :=
  let contextText := buildContext docs metas in
  if truthy (trim contextText) then contextText else noDocuments.

Definition notAvailable : str :=
  lit "The answer is not available in the provided documents.".

Definition quote : ascii := "034"%char.

(** The text of the single part sent to the generative model. *)
Definition promptText (question contextText : str) : str :=
  lit "You are a retrieval-augmented assistant." ++ [newline]
  ++ lit "Answer ONLY using the provided context." ++ [newline]
  ++ lit "If the answer is not present, reply exactly:" ++ [newline]
  ++ [quote] ++ notAvailable ++ [quote] ++ [newline; newline]
  ++ lit "Question:" ++ [newline] ++ question ++ [newline; newline]
  ++ lit "Context:" ++ [newline] ++ contextText.

(** [metas.map(m => ({filename: m.filename, ...}))]: reading a property of
    [null] throws. *)
Fixpoint sourcesOf (metas : list (option QueryMeta))
  : option (list SourceRef) :=
  match metas with
  | [] => Some []
  | None :: _ => None
  | Some m :: rest =>
      match sourcesOf rest with
      | Some l =>
          Some (mkSource (qm_filename m) (qm_category m) (qm_chunkIndex m) :: l)
      | None => None
      end
  end.

(** What [collection.query] does: it throws, or returns an object whose
    [documents?.[0]] and [metadatas?.[0]] are present or not. *)
Inductive QueryOutcome : Type :=
| QueryThrows (message : str)
| QueryResults (documents0 : option (list JsValue))
    (metadatas0 : option (list (option QueryMeta))).

(** What [ai.models.generateContent] does: it throws, or returns a response
    whose [candidates?.[0]?.content?.parts?.[0]?.text] is present or not. *)
Inductive GenOutcome : Type :=
| GenThrows (message : str)
| GenResponse (text : option str).

(** [text || "The answer is not available ..."]. *)
Definition answerOf (text : option str) : str :=
  match text with
  | Some t => if truthy t then t else notAvailable
  | None => notAvailable
  end.

Definition promptFailed (details : str) : Response :=
  mkResponse 500 (BErrorDetails (lit "Prompt failed") details).

Definition trimNotFunction : str := lit "question.trim is not a function".

Definition readOfNull : str :=
  lit "Cannot read properties of null (reading 'filename')".

(* ===================================================================== *)
(** ** The handlers *)
(* ===================================================================== *)

Record UploadedFile : Type := mkFile {
  originalname : str;
  tempPath : str
}.

(** The file-system part of [/upload] ([path.join], [fs.access],
    [fs.mkdir], [fs.rename]) followed by [readFileContent(finalPath)]: it
    throws, or gives the text read. *)
Inductive StoreOutcome : Type :=
| StoreThrows
| StoreText (text : str).

(** What [loadAllDocumentsWithCategory(process.env.RAG_DATA_DIR)] does. *)
Inductive LoadOutcome : Type :=
| LoadThrows (message : str)
| Loaded (docs : list Document).

(** The body of a [/rechunk] request. *)
Record RechunkRequest : Type := mkRechunk {
  rq_chunkLength : JsValue;
  rq_chunkOverlap : JsValue;
  rq_specificFile : JsValue;
  rq_specificCategory : JsValue
}.

(** [parseInt(v) || parseInt(process.env.X) || d]. *)
Definition effective (v envValue : JsValue) (d : Z) : number :=
  num_or (num_or (parseInt v) (parseInt envValue)) (Num d).

Definition rechunkLength (env : Env) (rq : RechunkRequest) : number :=
  effective (rq_chunkLength rq) (env_CHUNK_LENGTH env) 500.

Definition rechunkOverlap (env : Env) (rq : RechunkRequest) : number :=
  effective (rq_chunkOverlap rq) (env_CHUNK_OVERLAP env) 50.

Definition rechunkFailed (details : str) : Response :=
  mkResponse 500 (BErrorDetails (lit "Rechunk failed") details).

(** The message of the [TypeError] raised by [docs = ...] on the binding
    [const docs]. *)
Definition constAssignment : str := lit "Assignment to constant variable.".

Definition uploadFailed : Response :=
  mkResponse 500 (BError (lit "Upload failed")).

(** [chunks.map((c, i) => ({filename, category, chunkIndex: i,
    content: c}))] of [/upload]. *)
Definition prepare (name category : str) (chunks : list str) : list Chunk :=
  imap (fun i c => mkChunk name category i c) chunks.

Section Handlers.

Context {P : Type}.
Variable env : Env.
Variable policy : IdPolicy.
Variable embedder : str -> Prov P ProviderResult.
Variable query : vector -> Prov P QueryOutcome.
Variable generate : str -> Prov P GenOutcome.
Variable storeAndRead : str -> UploadedFile -> Prov P StoreOutcome.
Variable loadAllDocumentsWithCategory : Prov P LoadOutcome.

(** [POST /prompt]. *)
Definition promptHandler (question : JsValue) : Prov P Response :=
  if negb (js_truthy question) then
    ret (mkResponse 400 (BError (lit "question is required")))
  else
    match question with
    | JString q =>
        if negb (truthy (trim q)) then
          ret (mkResponse 400 (BError (lit "question is required")))
        else
          (queryEmbedding <- embedChunk embedder q ;;
           match queryEmbedding with
           | None | Some [] =>
               ret (mkResponse 500 (BError (lit "Failed to embed question")))
           | Some v =>
               (results <- query v ;;
                match results with
                | QueryThrows message => ret (promptFailed message)
                | QueryResults documents0 metadatas0 =>
                    let docs := default [] documents0 in
                    let metas := default [] metadatas0 in
                    let contextText := contextOf docs metas in
                    (response <- generate (promptText q contextText) ;;
                     match response with
                     | GenThrows message => ret (promptFailed message)
                     | GenResponse text =>
                         match sourcesOf metas with
                         | Some sources =>
                             ret (json (BAnswer (answerOf text) sources))
                         | None => ret (promptFailed readOfNull)
                         end
                     end)
                end)
           end)%prov
    | _ => ret (promptFailed trimNotFunction)
    end.

(** [POST /upload]; [None] when the embedding loop runs out of fuel. *)
Definition uploadHandler (category : option str) (file : option UploadedFile)
  (index : Index) : Prov P (option (Response * Index)) :=
  match category, file with
  | Some (c :: cs), Some f =>
      let category := c :: cs in
      (stored <- storeAndRead category f ;;
       match stored with
       | StoreThrows => ret (Some (uploadFailed, index))
       | StoreText text =>
           if negb (truthy text) then
             ret (Some (mkResponse 400
                          (BError (lit "Uploaded file has no extractable text.")),
                        index))
           else
             let chunks := chunkText text (CHUNK_LENGTH env) (Num 0) in
             if (length chunks =? 0)%nat then
               ret (Some (mkResponse 400
                            (BError
                               (lit "No chunks could be created from this file.")),
                          index))
             else
               let prepared := prepare (originalname f) category chunks in
               (result <- embedAllChunks embedder prepared ;;
                match result with
                | None => ret None
                | Some embedded =>
                    if (length embedded =? 0)%nat then
                      ret (Some (mkResponse 500
                                   (BError
                                      (lit "Failed to generate embeddings for file.")),
                                 index))
                    else
                      match saveToChroma policy embedded index with
                      | (SaveThrew _, index') =>
                          ret (Some (uploadFailed, index'))
                      | (_, index') =>
                          ret (Some (json (BMessage
                                             (lit "File uploaded and processed.")),
                                     index'))
                      end
                end)
       end)%prov
  | _, _ =>
      ret (Some (mkResponse 400 (BError (lit "category and file are required")),
                 index))
  end.

(** [POST /rechunk]; [None] when the embedding loop runs out of fuel. *)
Definition rechunkHandler (rq : RechunkRequest) (index : Index)
  : Prov P (option (Response * Index)) :=
  let CHUNK_LENGTH := rechunkLength env rq in
  let CHUNK_OVERLAP := rechunkOverlap env rq in
  (loaded <- loadAllDocumentsWithCategory ;;
   match loaded with
   | LoadThrows message => ret (Some (rechunkFailed message, index))
   | Loaded docs =>
       if js_truthy (rq_specificCategory rq) then
         ret (Some (rechunkFailed constAssignment, index))
       else if js_truthy (rq_specificFile rq) then
         ret (Some (rechunkFailed constAssignment, index))
       else if (length docs =? 0)%nat then
         ret (Some (mkResponse 404
                      (BMessage (lit "No matching documents found")), index))
       else
         let chunks := chunkAllDocuments docs CHUNK_LENGTH CHUNK_OVERLAP in
         (result <- embedAllChunks embedder chunks ;;
          match result with
          | None => ret None
          | Some embedded =>
              match saveToChroma policy embedded index with
              | (SaveThrew message, index') =>
                  ret (Some (rechunkFailed message, index'))
              | (_, index') =>
                  ret (Some (json (BRechunk (lit "Rechunk completed")
                                     (length docs) (length chunks)
                                     CHUNK_LENGTH CHUNK_OVERLAP),
                             index'))
              end
          end)
   end)%prov.

End Handlers.

(* ===================================================================== *)
(** ** Predicates of the statements *)
(* ===================================================================== *)

Section ChunkPredicates.

Variables (S O : Z) (sentences : list str).

(** A chunk within the bound, or one sentence behind a seed of at most
    [O] code units that does not fit. *)
Definition chunkOk (c : str) : Prop :=
  (Z.of_nat (length c) <= S)%Z \/
  exists seed s,
    In s sentences /\ c = trim (seed ++ s ++ [space]) /\
    length seed <= Z.to_nat O /\ (S < Z.of_nat (length (seed ++ s)))%Z.

Definition currentOk (cur : str) : Prop :=
  cur = [] \/ (Z.of_nat (length (trim cur)) <= S)%Z \/
  exists seed s,
    In s sentences /\ cur = seed ++ s ++ [space] /\
    length seed <= Z.to_nat O.

Definition chunkInv (st : list str * str) : Prop :=
  (forall c, In c st.1 -> chunkOk c) /\ currentOk st.2.

End ChunkPredicates.


(** What one write of [entry] makes of the record found under [k]. *)
Definition putAt (policy : IdPolicy) (k : str) (found : option StoredRecord)
  (entry : str * StoredRecord) : option StoredRecord :=
  if decide (entry.1 = k) then
    match policy, found with
    | KeepExisting, Some r => Some r
    | _, _ => Some entry.2
    end
  else found.


Definition byLength (text : str) : Prov nat ProviderResult :=
  fun n => (ProviderTensor (Some [N.of_nat (length text)]), Datatypes.S n).


(** The digits of the hexadecimal output of the hash. *)
Definition isLowerHex (c : ascii) : bool :=
  let n := N_of_ascii c in
  (((48 <=? n) && (n <=? 57)) || ((97 <=? n) && (n <=? 102)))%N.

(** The three fields an identifier is computed from. *)
Definition tripleOf (c : Chunk) : str * str * nat :=
  (filename c, category c, chunkIndex c).

Definition rawKeyOf (c : Chunk) : str :=
  rawKey (filename c) (category c) (chunkIndex c).

(** The chunks [saveToChroma] keeps: those with a non-empty embedding. *)
Definition usable (chunk : EmbeddedChunk) : bool :=
  match embedding chunk with
  | Some (_ :: _) => true
  | _ => false
  end.

Fixpoint usableCount (embeddedChunks : list EmbeddedChunk) : nat :=
  match embeddedChunks with
  | [] => 0
  | chunk :: rest =>
      if usable chunk then Datatypes.S (usableCount rest) else usableCount rest
  end.

(** Collaborators for the examples of the handlers; their state is the
    list of the texts sent to the generative model.  [unitEmbedder]
    returns a one-component vector, [emptyQuery] finds nothing,
    [foundQuery] finds one chunk, [loggingGenerate] answers with [text]
    and records its argument, [throwingGenerate] records it and throws. *)
Definition unitEmbedder (text : str) : Prov (list str) ProviderResult :=
  fun log => (ProviderTensor (Some [1%N]), log).

Definition emptyQuery (v : vector) : Prov (list str) QueryOutcome :=
  fun log => (QueryResults (Some []) (Some []), log).

Definition foundQuery (v : vector) : Prov (list str) QueryOutcome :=
  fun log =>
    (QueryResults
       (Some [JString (lit "Rates rose.")])
       (Some [Some (mkQueryMeta (JString (lit "a.txt"))
                      (JString (lit "finance")) (JNumber (Num 0)))]),
     log).

Definition loggingGenerate (text : option str) (prompt : str)
  : Prov (list str) GenOutcome :=
  fun log => (GenResponse text, log ++ [prompt]).

Definition throwingGenerate (message : str) (prompt : str)
  : Prov (list str) GenOutcome :=
  fun log => (GenThrows message, log ++ [prompt]).

(** How [/prompt] ends once the generative model has been called. *)
Definition promptAnswer (metas : list (option QueryMeta))
  (response : GenOutcome) : Response :=
  match response with
  | GenThrows message => promptFailed message
  | GenResponse text =>
      match sourcesOf metas with
      | Some sources => json (BAnswer (answerOf text) sources)
      | None => promptFailed readOfNull
      end
  end.

(** File-system collaborators for the examples: the upload whose text is
    [text], and the corpus [docs]. *)
Definition storeGiving {P : Type} (text : str) (category : str)
  (file : UploadedFile) : Prov P StoreOutcome :=
  ret (StoreText text).

Definition corpus {P : Type} (docs : list Document) : Prov P LoadOutcome :=
  ret (Loaded docs).

(** The text stored under the identifier of chunk [i] of a file. *)
Definition storedDocument (name category : str) (i : nat)
  (result : option (Response * Index)) : option str :=
  match result with
  | Some (_, index) =>
      r_document <$> index !! makeChunkId (mkChunk name category i [])
  | None => None
  end.

Definition noParameters : RechunkRequest :=
  mkRechunk JUndefined JUndefined JUndefined JUndefined.

(** A string of white space only. *)
Definition blank (s : str) : bool := forallb isWhiteSpace s.

(** A chunk as [chunkText] stores it: not empty, and without white space
    at either end. *)
Definition trimmed (c : str) : Prop := c <> [] /\ trim c = c.

(** The entry [saveToChroma] builds for a chunk it keeps. *)
Definition metadataOf (chunk : EmbeddedChunk) : Metadata :=
  mkMetadata (filename (source chunk)) (category (source chunk))
    (chunkIndex (source chunk)) modelTag.

Definition keptChunks (embeddedChunks : list EmbeddedChunk)
  : list EmbeddedChunk :=
  List.filter usable embeddedChunks.

(** A provider that throws at every call. *)
Definition alwaysThrows (text : str) : Prov nat ProviderResult :=
  fun n => (ProviderThrows, Datatypes.S n).

(** The decimal digits of [d], without the ["0"] that stands for the
    empty numeral. *)
Definition digitsOf (d : Decimal.uint) : str :=
  list_ascii_of_string (NilEmpty.string_of_uint d).

(* ===================================================================== *)
(** ** Reading the files of the data directory *)
(* ===================================================================== *)

(** What a read returns: an error is thrown, or a text is there. *)
Inductive ReadOutcome : Type :=
| ReadThrows (message : str)
| ReadText (text : str).

(** A directory as [fs.readdir(dir, {withFileTypes: true})] lists it: the
    entries in order, each a file or a directory with its own listing;
    [None] is a directory whose listing throws, with that message. *)
#[warnings="-register-all"]
Inductive Entry : Type :=
| FileEntry (name : str)
| DirEntry (name : str) (failure : option str) (entries : list Entry).

Definition entryName (entry : Entry) : str :=
  match entry with
  | FileEntry name => name
  | DirEntry name _ _ => name
  end.

Definition slash : ascii := "/"%char.

(** [text] when it has something other than white space, [""] otherwise:
    the test [!text || text.trim().length === 0]. *)
Definition orEmpty (text : str) : str :=
  if truthy text && negb (length (trim text) =? 0)%nat then text else [].

Section Files.

(** [path.extname], [String.prototype.toLowerCase], [path.join]; the
    read of a file as UTF-8; the text the PDF parser extracts, [None] when
    anything inside the [try] of [extractPdfText] throws; the value of
    [mammoth.extractRawText] on the file's buffer. *)
Variable extname : str -> str.
Variable toLowerCase : str -> str.
Variable join : str -> str -> str.
Variable readUtf8 : str -> ReadOutcome.
Variable parsePdf : str -> option str.
Variable rawTextOfDocx : str -> ReadOutcome.

Definition extractPdfText (filePath : str) : str :=
  match parsePdf filePath with
  | Some text => if (length (trim text) =? 0)%nat then [] else text
  | None => []
  end.

Definition readFileContent (filePath : str) : ReadOutcome :=
  let ext := toLowerCase (extname filePath) in
  if bool_decide (ext = lit ".txt") || bool_decide (ext = lit ".md") then
    readUtf8 filePath
  else if bool_decide (ext = lit ".pdf") then
    ReadText (orEmpty (extractPdfText filePath))
  else if bool_decide (ext = lit ".docx") then
    match rawTextOfDocx filePath with
    | ReadThrows message => ReadThrows message
    | ReadText value => ReadText (orEmpty value)
    end
  else ReadText [].

(** [category ? `${category}/${entry.name}` : entry.name]. *)
Definition subCategoryOf (category name : str) : str :=
  if truthy category then category ++ [slash] ++ name else name.

(** One turn of the loop [for (const entry of entries)] of
    [loadAllDocumentsWithCategory(dir, category)], and the loop itself
    for the listing of a subdirectory. *)
Fixpoint loadEntry (dir category : str) (entry : Entry) : LoadOutcome :=
  let fullPath := join dir (entryName entry) in
  match entry with
  | DirEntry name failure entries =>
      match failure with
      | Some message => LoadThrows message
      | None =>
          (fix loadEntries (l : list Entry) : LoadOutcome :=
             match l with
             | [] => Loaded []
             | e :: rest =>
                 match loadEntry fullPath (subCategoryOf category name) e with
                 | LoadThrows message => LoadThrows message
                 | Loaded docs =>
                     match loadEntries rest with
                     | LoadThrows message => LoadThrows message
                     | Loaded allDocs => Loaded (docs ++ allDocs)
                     end
                 end
             end) entries
      end
  | FileEntry name =>
      match readFileContent fullPath with
      | ReadThrows message => LoadThrows message
      | ReadText text =>
          if negb (truthy text) || (length (trim text) =? 0)%nat
          then Loaded []
          else Loaded [mkDocument name category text]
      end
  end.

(** [loadAllDocumentsWithCategory(dir, category)] on the listing
    [entries] of [dir]. *)
Fixpoint loadEntries (dir category : str) (entries : list Entry)
  : LoadOutcome :=
  match entries with
  | [] => Loaded []
  | e :: rest =>
      match loadEntry dir category e with
      | LoadThrows message => LoadThrows message
      | Loaded docs =>
          match loadEntries dir category rest with
          | LoadThrows message => LoadThrows message
          | Loaded allDocs => Loaded (docs ++ allDocs)
          end
      end
  end.

End Files.

(** The element of [sources] made from a metadata object. *)
Definition sourceOfMeta (m : QueryMeta) : SourceRef :=
  mkSource (qm_filename m) (qm_category m) (qm_chunkIndex m).

(** What holds of a document loaded below the category [category]: its
    text has something other than white space, and its category begins
    with [category]. *)
Definition loadedFrom (category : str) (d : Document) : Prop :=
  blank (doc_content d) = false /\ category `prefix_of` doc_category d.

(** A file system for the examples: every path has the extension [.txt]
    and the text ["Rates rose."], except [blank.txt], which holds a
    space. *)
Definition sampleJoin (dir name : str) : str := dir ++ [slash] ++ name.

Definition sampleRead (filePath : str) : ReadOutcome :=
  if bool_decide (filePath = lit "data/blank.txt") then ReadText [space]
  else ReadText (lit "Rates rose.").

Definition sampleListing : list Entry :=
  [FileEntry (lit "blank.txt");
   DirEntry (lit "finance") None [FileEntry (lit "a.txt")]].

(* ===================================================================== *)
(** * Properties *)
(* ===================================================================== *)

(** ** White space and [trim] *)

Lemma trimStart_length (s : str) : length (trimStart s) <= length s.
Proof.
  induction s as [|c r IH]; simpl; [lia|].
  destruct (isWhiteSpace c); simpl; lia.
Qed.

Lemma trimEnd_length (s : str) : length (trimEnd s) <= length s.
Proof.
  unfold trimEnd. rewrite length_rev.
  pose proof (trimStart_length (rev s)) as H.
  rewrite length_rev in H. exact H.
Qed.

Lemma trim_length (s : str) : length (trim s) <= length s.
Proof.
  unfold trim.
  pose proof (trimEnd_length (trimStart s)).
  pose proof (trimStart_length s). lia.
Qed.

Lemma trimEnd_snoc_white (s : str) (c : ascii) :
  isWhiteSpace c = true -> trimEnd (s ++ [c]) = trimEnd s.
Proof.
  intros Hc. unfold trimEnd. rewrite rev_app_distr. simpl.
  now rewrite Hc.
Qed.

Lemma trimStart_snoc_white (s : str) (c : ascii) :
  isWhiteSpace c = true ->
  trimStart (s ++ [c]) = [] \/ trimStart (s ++ [c]) = trimStart s ++ [c].
Proof.
  intros Hc. induction s as [|a r IH]; simpl.
  - rewrite Hc. now left.
  - destruct (isWhiteSpace a); [exact IH | now right].
Qed.

(** Appending one white space never makes the trimmed string longer than
    the string before it was appended. *)
Lemma trim_snoc_white_length (s : str) (c : ascii) :
  isWhiteSpace c = true -> length (trim (s ++ [c])) <= length s.
Proof.
  intros Hc. unfold trim.
  destruct (trimStart_snoc_white s c Hc) as [H|H]; rewrite H.
  - simpl. lia.
  - rewrite trimEnd_snoc_white by exact Hc.
    pose proof (trimEnd_length (trimStart s)).
    pose proof (trimStart_length s). lia.
Qed.

Lemma trimStart_snoc_nil (s : str) (c : ascii) :
  trimStart (s ++ [c]) = [] -> trimStart s = [].
Proof.
  induction s as [|a r IH]; simpl; [reflexivity|].
  destruct (isWhiteSpace a); [exact IH | discriminate].
Qed.

Lemma trim_snoc_white (s : str) (c : ascii) :
  isWhiteSpace c = true -> trim (s ++ [c]) = trim s.
Proof.
  intros Hc. unfold trim.
  destruct (trimStart_snoc_white s c Hc) as [H|H].
  - rewrite H. now rewrite (trimStart_snoc_nil s c H).
  - rewrite H. now apply trimEnd_snoc_white.
Qed.

(** ** The chunker *)

Lemma sliceLast_length (n : nat) (s : str) : length (sliceLast n s) <= n.
Proof. unfold sliceLast. rewrite length_skipn. lia. Qed.

Lemma space_white : isWhiteSpace space = true.
Proof. reflexivity. Qed.

Section ChunkBound.

Variables (S O : Z) (sentences : list str).

Lemma currentOk_push (cur : str) :
  currentOk S O sentences cur -> truthy (trim cur) = true -> chunkOk S O sentences (trim cur).
Proof.
  intros [->|[H|(seed & s & Hin & -> & Hseed)]] Ht.
  - discriminate.
  - now left.
  - destruct (Z_le_gt_dec (Z.of_nat (length (trim (seed ++ s ++ [space])))) S)
      as [Hle|Hgt]; [now left|].
    right. exists seed, s. repeat split; try assumption.
    pose proof (trim_snoc_white_length (seed ++ s) space space_white) as Hl.
    rewrite <- app_assoc in Hl. lia.
Qed.

Lemma chunkStep_inv (st : list str * str) (sentence : str) :
  In sentence sentences -> chunkInv S O sentences st ->
  chunkInv S O sentences (chunkStep (Num S) (Num O) st sentence).
Proof.
  intros Hin [Hchunks Hcur]. destruct st as [chunks cur]. simpl in *.
  unfold chunkStep, num_gt.
  destruct (S <? Z.of_nat (length (cur ++ sentence)))%Z eqn:Hgt.
  - set (chunks' := if truthy (trim cur) then chunks ++ [trim cur] else chunks).
    assert (Hc' : forall c, In c chunks' -> chunkOk S O sentences c).
    { subst chunks'. destruct (truthy (trim cur)) eqn:Ht; [|exact Hchunks].
      intros c Hc. apply in_app_or in Hc as [Hc|[<-|[]]].
      - now apply Hchunks.
      - now apply currentOk_push. }
    split; simpl; [exact Hc'|].
    right; right.
    destruct ((0 <? O)%Z && (0 <? length chunks')%nat).
    + exists (trim (sliceLast (Z.to_nat O) cur)), sentence.
      repeat split; [assumption|].
      pose proof (trim_length (sliceLast (Z.to_nat O) cur)).
      pose proof (sliceLast_length (Z.to_nat O) cur). lia.
    + exists [], sentence. repeat split; [assumption|simpl; lia].
  - split; simpl; [exact Hchunks|].
    right; left. apply Z.ltb_ge in Hgt.
    pose proof (trim_snoc_white_length (cur ++ sentence) space space_white) as Hl.
    rewrite <- app_assoc in Hl. lia.
Qed.

Lemma chunkFold_inv (l : list str) (st : list str * str) :
  (forall s, In s l -> In s sentences) -> chunkInv S O sentences st ->
  chunkInv S O sentences (fold_left (chunkStep (Num S) (Num O)) l st).
Proof.
  revert st. induction l as [|s l IH]; intros st Hl Hst; simpl; [exact Hst|].
  apply IH.
  - intros s' Hs'. apply Hl. now right.
  - apply chunkStep_inv; [apply Hl; now left | exact Hst].
Qed.

End ChunkBound.

(** C2 (as amended).  For every text and all integers [S], [O], every
    chunk returned by [chunkText text S O] either has at most [S] code
    units, or it is [trim (seed ++ s ++ " ")] for one sentence [s] of the
    text and an overlap seed of at most [O] code units (empty when [O] is
    0) such that seed and sentence together exceed [S]: only one sentence
    is ever added beyond the bound, and it is never split. *)
Theorem chunkText_bound (text : str) (S O : Z) (c : str) :
  In c (chunkText text (Num S) (Num O)) ->
  (Z.of_nat (length c) <= S)%Z \/
  exists seed s,
    In s (sentencesOf text) /\ c = trim (seed ++ s ++ [space]) /\
    length seed <= Z.to_nat O /\ (S < Z.of_nat (length (seed ++ s)))%Z.
Proof.
  unfold chunkText, chunkLoop.
  pose proof (chunkFold_inv S O (sentencesOf text) (sentencesOf text) ([], []))
    as Hinv.
  destruct (fold_left _ _ _) as [chunks cur].
  destruct Hinv as [Hchunks Hcur].
  - auto.
  - split; simpl; [intros ? []|now left].
  - simpl in *. destruct (truthy (trim cur)) eqn:Ht.
    + intros Hc. apply in_app_or in Hc as [Hc|[<-|[]]].
      * now apply Hchunks.
      * now apply (currentOk_push S O (sentencesOf text)).
    + apply Hchunks.
Qed.

Lemma chunkText_bound_witness :
  let text := lit "Rates rose. Fees dropped. Staff left." in
  let c := lit "Fees dropped." in
  In c (chunkText text (Num 20) (Num 0)) /\
  ((Z.of_nat (length c) <= 20)%Z \/
   exists seed s,
     In s (sentencesOf text) /\ c = trim (seed ++ s ++ [space]) /\
     length seed <= Z.to_nat 0 /\ (20 < Z.of_nat (length (seed ++ s)))%Z).
Proof.
  split.
  - vm_compute. right. left. reflexivity.
  - apply (chunkText_bound (lit "Rates rose. Fees dropped. Staff left.") 20 0).
    vm_compute. right. left. reflexivity.
Defined.

(** C2 (as stated) fails with a positive overlap: with [S = 6] and
    [O = 3] the second chunk of ["Aaaa. Bbbb."] is ["a.Bbbb."], seven code
    units long, although no sentence of the text is longer than six. *)
Lemma chunkText_bound_counterexample :
  let text := lit "Aaaa. Bbbb." in
  ~ (forall c, In c (chunkText text (Num 6) (Num 3)) ->
       length c <= 6 \/
       exists s, In s (sentencesOf text) /\ 6 < length s /\ c = s).
Proof.
  intros text H.
  destruct (H (lit "a.Bbbb.")) as [Hlen|(s & Hin & Hlen & _)].
  - vm_compute. right. left. reflexivity.
  - vm_compute in Hlen. lia.
  - vm_compute in Hin. destruct Hin as [<-|[<-|[]]]; vm_compute in Hlen; lia.
Qed.

(** ** The batched embedder *)

Section EmbedderFacts.

Context {P : Type}.
Variable embedder : str -> Prov P ProviderResult.

Lemma embedBatch_length (batch : list Chunk) (p : P) :
  length (embedBatch embedder batch p).1 = length batch.
Proof.
  revert p. induction batch as [|c rest IH]; intros p; [reflexivity|].
  simpl. unfold bind.
  destruct (embedChunk embedder (content c) p) as [v p1].
  specialize (IH p1).
  destruct (embedBatch embedder rest p1) as [vs p2]. simpl in *.
  now rewrite IH.
Qed.

(** The calls of two consecutive batches are the calls of their
    concatenation. *)
Lemma embedBatch_app (a b : list Chunk) (p : P) :
  embedBatch embedder (a ++ b) p =
  let '(va, p1) := embedBatch embedder a p in
  let '(vb, p2) := embedBatch embedder b p1 in
  (va ++ vb, p2).
Proof.
  revert p. induction a as [|c rest IH]; intros p; simpl.
  - unfold ret. now destruct (embedBatch embedder b p).
  - unfold bind, ret.
    destruct (embedChunk embedder (content c) p) as [v p1].
    rewrite IH.
    destruct (embedBatch embedder rest p1) as [va p2]. simpl.
    destruct (embedBatch embedder b p2) as [vb p3].
    reflexivity.
Qed.

Lemma pushEmbedded_app (a b : list Chunk) (va vb : list (option vector)) :
  length va = length a ->
  pushEmbedded (a ++ b) (va ++ vb) = pushEmbedded a va ++ pushEmbedded b vb.
Proof.
  revert va. induction a as [|c rest IH]; intros [|v va] Hlen;
    simpl in *; try discriminate; [reflexivity|].
  destruct v; simpl; rewrite IH by lia; reflexivity.
Qed.


(** With fuel for the remaining chunks the loop ends, and what it adds
    to [embedded] is what one pass over the remaining chunks gives. *)
Lemma embedLoop_spec (fuel i : nat) (chunks : list Chunk)
  (embedded : list EmbeddedChunk) (p : P) :
  length chunks - i <= fuel ->
  embedLoop embedder fuel i chunks embedded p =
  let '(vectors, p') := embedBatch embedder (skipn i chunks) p in
  (Some (embedded ++ pushEmbedded (skipn i chunks) vectors), p').
Proof.
  revert i embedded p.
  induction fuel as [|fuel IH]; intros i embedded p Hfuel.
  - assert (Hi : (i <? length chunks)%nat = false)
      by (apply Nat.ltb_ge; lia).
    simpl. rewrite Hi. rewrite skipn_all2 by lia.
    simpl. unfold ret. now rewrite app_nil_r.
  - simpl. destruct (i <? length chunks)%nat eqn:Hi.
    + apply Nat.ltb_lt in Hi. unfold bind, slice.
      replace (i + EMBED_BATCH_SIZE - i) with EMBED_BATCH_SIZE by lia.
      set (tail := skipn i chunks).
      pose proof (embedBatch_app (firstn EMBED_BATCH_SIZE tail)
                    (skipn EMBED_BATCH_SIZE tail) p) as Happ.
      rewrite firstn_skipn in Happ. rewrite Happ. clear Happ.
      pose proof (embedBatch_length (firstn EMBED_BATCH_SIZE tail) p) as Hlen.
      destruct (embedBatch embedder (firstn EMBED_BATCH_SIZE tail) p)
        as [va p1].
      simpl in Hlen.
      rewrite IH by (unfold EMBED_BATCH_SIZE; lia).
      replace (skipn (i + EMBED_BATCH_SIZE) chunks)
        with (skipn EMBED_BATCH_SIZE tail)
        by (subst tail; rewrite skipn_skipn; f_equal; lia).
      destruct (embedBatch embedder (skipn EMBED_BATCH_SIZE tail) p1)
        as [vb p2].
      replace (pushEmbedded tail (va ++ vb))
        with (pushEmbedded (firstn EMBED_BATCH_SIZE tail
                            ++ skipn EMBED_BATCH_SIZE tail) (va ++ vb))
        by now rewrite firstn_skipn.
      rewrite pushEmbedded_app by exact Hlen.
      now rewrite app_assoc.
    + apply Nat.ltb_ge in Hi. rewrite skipn_all2 by lia.
      simpl. unfold ret. now rewrite app_nil_r.
Qed.

End EmbedderFacts.

(** The loop of [embedAllChunks] always ends, and batching is invisible:
    the result is one pass over all the chunks. *)
Lemma embedAllChunks_spec {P : Type} (embedder : str -> Prov P ProviderResult)
  (chunks : list Chunk) (p : P) :
  embedAllChunks embedder chunks p =
  let '(vectors, p') := embedBatch embedder chunks p in
  (Some (pushEmbedded chunks vectors), p').
Proof.
  unfold embedAllChunks. rewrite embedLoop_spec by lia. reflexivity.
Qed.







(** ** The write to the index *)

Lemma putRecord_lookup (policy : IdPolicy) (index : Index)
  (entry : str * StoredRecord) (k : str) :
  putRecord policy index entry !! k = putAt policy k (index !! k) entry.
Proof.
  unfold putRecord, putAt. destruct entry as [i r]. simpl.
  destruct (decide (i = k)) as [->|Hne].
  - destruct policy; [now rewrite lookup_insert_eq|].
    destruct (index !! k) eqn:Hk; [exact Hk|].
    now rewrite lookup_insert_eq.
  - destruct policy; [now rewrite lookup_insert_ne|].
    destruct (index !! i); [reflexivity|].
    now rewrite lookup_insert_ne.
Qed.

Lemma fold_putRecord_lookup (policy : IdPolicy)
  (entries : list (str * StoredRecord)) (index : Index) (k : str) :
  fold_left (putRecord policy) entries index !! k =
  fold_left (putAt policy k) entries (index !! k).
Proof.
  revert index. induction entries as [|e l IH]; intros index; simpl;
    [reflexivity|].
  now rewrite IH, putRecord_lookup.
Qed.

(** Under [Overwrite] the writes to [k] either leave what was found or
    replace it by a record that does not depend on it. *)
Lemma fold_putAt_overwrite (k : str) (entries : list (str * StoredRecord)) :
  (forall x, fold_left (putAt Overwrite k) entries x = x) \/
  (exists r, forall x, fold_left (putAt Overwrite k) entries x = Some r).
Proof.
  induction entries as [|e l IH]; simpl; [now left|].
  unfold putAt at 2 4. destruct (decide (e.1 = k)).
  - right. destruct IH as [IH|[r IH]].
    + exists e.2. intros x. now rewrite IH.
    + exists r. intros x. apply IH.
  - exact IH.
Qed.

Lemma fold_putAt_keep_some (k : str) (entries : list (str * StoredRecord))
  (r : StoredRecord) :
  fold_left (putAt KeepExisting k) entries (Some r) = Some r.
Proof.
  induction entries as [|e l IH]; simpl; [reflexivity|].
  unfold putAt at 2. now destruct (decide (e.1 = k)).
Qed.

Lemma fold_putAt_idempotent (policy : IdPolicy) (k : str)
  (entries : list (str * StoredRecord)) (x : option StoredRecord) :
  fold_left (putAt policy k) entries (fold_left (putAt policy k) entries x) =
  fold_left (putAt policy k) entries x.
Proof.
  destruct policy.
  - destruct (fold_putAt_overwrite k entries) as [H|[r H]];
      now rewrite !H.
  - destruct (fold_left (putAt KeepExisting k) entries x) as [r|] eqn:Hx.
    + apply fold_putAt_keep_some.
    + destruct x as [r|]; [|exact Hx].
      rewrite fold_putAt_keep_some in Hx. discriminate.
Qed.

Lemma collection_add_idempotent (policy : IdPolicy) (req : AddRequest)
  (index : Index) :
  collection_add policy req (collection_add policy req index) =
  collection_add policy req index.
Proof.
  unfold collection_add. apply map_eq. intros k.
  rewrite !fold_putRecord_lookup. apply fold_putAt_idempotent.
Qed.

Lemma saveToChroma_idempotent (policy : IdPolicy)
  (embeddedChunks : list EmbeddedChunk) (index : Index) :
  saveToChroma policy embeddedChunks
    (saveToChroma policy embeddedChunks index).2 =
  saveToChroma policy embeddedChunks index.
Proof.
  unfold saveToChroma.
  destruct (saveRequest embeddedChunks) as [| |req]; simpl; try reflexivity.
  now rewrite collection_add_idempotent.
Qed.

(** C1.  Chunking the same documents with the same parameters, embedding
    the chunks with the same results and writing them a second time
    leaves the index as the first run left it, with the same number of
    records, whether the index overwrites a record whose identifier it
    holds or keeps it. *)
Theorem reingestion_idempotent {P : Type} (policy : IdPolicy)
  (embedder : str -> Prov P ProviderResult) (docs : list Document)
  (maxSize overlap : number) (p1 p2 : P) (index : Index) :
  let chunks := chunkAllDocuments docs maxSize overlap in
  (embedBatch embedder chunks p1).1 = (embedBatch embedder chunks p2).1 ->
  exists e1 e2 q1 q2,
    embedAllChunks embedder chunks p1 = (Some e1, q1) /\
    embedAllChunks embedder chunks p2 = (Some e2, q2) /\
    let once := (saveToChroma policy e1 index).2 in
    let twice := (saveToChroma policy e2 once).2 in
    twice = once /\ size twice = size once.
Proof.
  intros chunks Hsame.
  pose proof (embedAllChunks_spec embedder chunks p1) as H1.
  pose proof (embedAllChunks_spec embedder chunks p2) as H2.
  destruct (embedBatch embedder chunks p1) as [v1 q1].
  destruct (embedBatch embedder chunks p2) as [v2 q2].
  simpl in Hsame. subst v2.
  exists (pushEmbedded chunks v1), (pushEmbedded chunks v1), q1, q2.
  repeat split; try assumption.
  - now rewrite saveToChroma_idempotent.
  - now rewrite saveToChroma_idempotent.
Qed.

Lemma reingestion_idempotent_witness :
  let docs := [mkDocument (lit "a.txt") (lit "finance")
                 (lit "Rates rose. Fees dropped. Staff left.")] in
  let chunks := chunkAllDocuments docs (Num 20) (Num 5) in
  (embedBatch byLength chunks 0).1 = (embedBatch byLength chunks 3).1 /\
  exists e1 e2 q1 q2,
    embedAllChunks byLength chunks 0 = (Some e1, q1) /\
    embedAllChunks byLength chunks 3 = (Some e2, q2) /\
    let once := (saveToChroma Overwrite e1 ∅).2 in
    let twice := (saveToChroma Overwrite e2 once).2 in
    twice = once /\ size twice = size once.
Proof.
  split.
  - vm_compute. reflexivity.
  - apply (reingestion_idempotent Overwrite byLength
             [mkDocument (lit "a.txt") (lit "finance")
                (lit "Rates rose. Fees dropped. Staff left.")]
             (Num 20) (Num 5) 0 3 ∅).
    vm_compute. reflexivity.
Defined.

(** ** Chunk identity *)

Lemma to_uint_nonnil (n : nat) : Nat.to_uint n <> Decimal.Nil.
Proof.
  assert (E : Nat.to_uint n = Decimal.unorm (Nat.to_uint n)).
  { rewrite <- Unsigned.to_of. now rewrite Unsigned.of_to. }
  rewrite E. unfold Decimal.unorm.
  destruct (Decimal.nzhead (Nat.to_uint n)); discriminate.
Qed.

Lemma natToString_inj (n m : nat) : natToString n = natToString m -> n = m.
Proof.
  unfold natToString. intros H.
  apply (f_equal string_of_list_ascii) in H.
  rewrite !string_of_list_ascii_of_string in H.
  apply (f_equal NilZero.uint_of_string) in H.
  rewrite !NilZero.usu in H by apply to_uint_nonnil.
  injection H as H. now apply Unsigned.to_uint_inj.
Qed.

(** Two strings cut at their first [bar] agree piecewise. *)
Lemma split_at_bar (a b x y : str) :
  ~ In bar a -> ~ In bar b ->
  a ++ bar :: x = b ++ bar :: y -> a = b /\ x = y.
Proof.
  revert b. induction a as [|c a IH]; intros [|d b] Ha Hb H; simpl in *.
  - injection H as <-. now split.
  - injection H as H _. exfalso. apply Hb. now left.
  - injection H as H _. exfalso. apply Ha. now left.
  - injection H as <- H.
    destruct (IH b) as [-> ->]; auto.
Qed.

Lemma rawKey_inj (f1 c1 f2 c2 : str) (i1 i2 : nat) :
  ~ In bar f1 -> ~ In bar c1 -> ~ In bar f2 -> ~ In bar c2 ->
  rawKey f1 c1 i1 = rawKey f2 c2 i2 -> f1 = f2 /\ c1 = c2 /\ i1 = i2.
Proof.
  unfold rawKey. simpl. intros Hf1 Hc1 Hf2 Hc2 H.
  apply split_at_bar in H as [-> H]; try assumption.
  apply split_at_bar in H as [-> H]; try assumption.
  apply natToString_inj in H. auto.
Qed.

Lemma hexDigit_lower (x : Z) :
  (0 <= x < 16)%Z -> isLowerHex (Sha1.hexDigit x) = true.
Proof.
  intros H.
  assert (Hx : (x = 0 \/ x = 1 \/ x = 2 \/ x = 3 \/ x = 4 \/ x = 5 \/ x = 6 \/
                x = 7 \/ x = 8 \/ x = 9 \/ x = 10 \/ x = 11 \/ x = 12 \/
                x = 13 \/ x = 14 \/ x = 15)%Z) by lia.
  repeat (destruct Hx as [->|Hx]; [reflexivity|]).
  now subst x.
Qed.

Lemma nibble_lower (w i : Z) : isLowerHex (Sha1.nibble w i) = true.
Proof.
  unfold Sha1.nibble. apply hexDigit_lower.
  change 15%Z with (Z.ones 4). rewrite Z.land_ones by lia.
  apply Z.mod_pos_bound. lia.
Qed.

Lemma hex32_lower (w : Z) : Forall (fun c => isLowerHex c = true) (Sha1.hex32 w).
Proof.
  unfold Sha1.hex32. repeat constructor; apply nibble_lower.
Qed.

Lemma hex_length (s : str) : length (Sha1.hex s) = 40.
Proof.
  unfold Sha1.hex.
  destruct (Sha1.digest (Sha1.encode s)) as [[[[h0 h1] h2] h3] h4].
  reflexivity.
Qed.

Lemma hex_lower (s : str) : Forall (fun c => isLowerHex c = true) (Sha1.hex s).
Proof.
  unfold Sha1.hex.
  destruct (Sha1.digest (Sha1.encode s)) as [[[[h0 h1] h2] h3] h4].
  repeat (apply Forall_app; split); apply hex32_lower.
Qed.

Lemma digitsOf_no_bar (d : Decimal.uint) : ~ In bar (digitsOf d).
Proof.
  unfold digitsOf.
  induction d as [|d IH|d IH|d IH|d IH|d IH|d IH|d IH|d IH|d IH|d IH];
    simpl; [tauto|..]; intros [H|H]; (discriminate H || now apply IH).
Qed.

Lemma natToString_no_bar (n : nat) : ~ In bar (natToString n).
Proof.
  unfold natToString, NilZero.string_of_uint.
  pose proof (digitsOf_no_bar (Nat.to_uint n)) as H. unfold digitsOf in H.
  destruct (Nat.to_uint n); try exact H.
  simpl. intros [E|[]]. discriminate E.
Qed.

(** Two strings cut at their last [bar] agree piecewise. *)
Lemma split_at_last_bar (a b x y : str) :
  ~ In bar x -> ~ In bar y ->
  a ++ bar :: x = b ++ bar :: y -> a = b /\ x = y.
Proof.
  intros Hx Hy H. apply (f_equal (@rev ascii)) in H.
  rewrite !rev_app_distr in H. simpl in H. rewrite <- !app_assoc in H.
  simpl in H.
  apply split_at_bar in H as [H1 H2].
  - apply (f_equal (@rev ascii)) in H1, H2.
    rewrite !rev_involutive in H1, H2. auto.
  - intros Hin. apply Hx. now apply in_rev.
  - intros Hin. apply Hy. now apply in_rev.
Qed.

(** The raw key always gives back the index and the part before it. *)
Lemma rawKey_index (f1 c1 f2 c2 : str) (i1 i2 : nat) :
  rawKey f1 c1 i1 = rawKey f2 c2 i2 ->
  i1 = i2 /\ f1 ++ bar :: c1 = f2 ++ bar :: c2.
Proof.
  unfold rawKey. intros H.
  assert (Hshape : forall f c n : str,
            f ++ [bar] ++ c ++ [bar] ++ n = (f ++ bar :: c) ++ bar :: n)
    by (intros f c n; now rewrite <- app_assoc).
  rewrite !Hshape in H.
  apply split_at_last_bar in H as [H1 H2];
    try apply natToString_no_bar.
  split; [now apply natToString_inj | exact H1].
Qed.

Lemma rawKey_inj_categories (f1 c1 f2 c2 : str) (i1 i2 : nat) :
  ~ In bar c1 -> ~ In bar c2 ->
  rawKey f1 c1 i1 = rawKey f2 c2 i2 -> f1 = f2 /\ c1 = c2 /\ i1 = i2.
Proof.
  intros Hc1 Hc2 H. apply rawKey_index in H as [Hi H].
  apply split_at_last_bar in H as [Hf Hc]; auto.
Qed.

Lemma rawKey_inj_filenames (f1 c1 f2 c2 : str) (i1 i2 : nat) :
  ~ In bar f1 -> ~ In bar f2 ->
  rawKey f1 c1 i1 = rawKey f2 c2 i2 -> f1 = f2 /\ c1 = c2 /\ i1 = i2.
Proof.
  intros Hf1 Hf2 H. apply rawKey_index in H as [Hi H].
  apply split_at_bar in H as [Hf Hc]; auto.
Qed.

(** Chunks that differ in one field only have different raw keys,
    whatever the names hold. *)
Lemma rawKey_single_field (f1 c1 f2 c2 : str) (i1 i2 : nat) :
  rawKey f1 c1 i1 = rawKey f2 c2 i2 ->
  (f1 = f2 /\ c1 = c2 -> i1 = i2) /\
  (f1 = f2 /\ i1 = i2 -> c1 = c2) /\
  (c1 = c2 /\ i1 = i2 -> f1 = f2).
Proof.
  intros H. apply rawKey_index in H as [Hi H].
  split; [auto|]. split.
  - intros [-> _]. apply app_inv_head in H. now injection H.
  - intros [-> _].
    now apply (app_inv_tail (bar :: c2)) in H.
Qed.

(** C7 (as amended).  [makeChunkId] depends on the chunk through
    (filename, category, chunkIndex) alone and always returns 40
    lower-case hexadecimal digits, the SHA-1 of the raw key
    [filename|category|chunkIndex]: chunks with equal raw keys have equal
    identifiers.  The raw key always determines the index, and chunks
    that differ in one of the three fields only always have different raw
    keys; chunks that differ in more than one field have different raw
    keys when their file names hold no [|], or their categories hold no
    [|].  The identifiers of chunks 0 and 1 of [a.txt] in [finance] are
    the two SHA-1 values given. *)
Theorem makeChunkId_identity (c1 c2 : Chunk) :
  length (makeChunkId c1) = 40 /\
  Forall (fun c => isLowerHex c = true) (makeChunkId c1) /\
  rawKeyOf c1 =
    filename c1 ++ "|"%char :: category c1
    ++ "|"%char :: natToString (chunkIndex c1) /\
  makeChunkId c1 = Sha1.hex (rawKeyOf c1) /\
  (tripleOf c1 = tripleOf c2 -> makeChunkId c1 = makeChunkId c2) /\
  (rawKeyOf c1 = rawKeyOf c2 -> makeChunkId c1 = makeChunkId c2) /\
  (rawKeyOf c1 = rawKeyOf c2 -> chunkIndex c1 = chunkIndex c2) /\
  (filename c1 = filename c2 -> category c1 = category c2 ->
   chunkIndex c1 <> chunkIndex c2 -> rawKeyOf c1 <> rawKeyOf c2) /\
  (filename c1 = filename c2 -> chunkIndex c1 = chunkIndex c2 ->
   category c1 <> category c2 -> rawKeyOf c1 <> rawKeyOf c2) /\
  (category c1 = category c2 -> chunkIndex c1 = chunkIndex c2 ->
   filename c1 <> filename c2 -> rawKeyOf c1 <> rawKeyOf c2) /\
  ((~ In bar (filename c1) /\ ~ In bar (filename c2)) \/
   (~ In bar (category c1) /\ ~ In bar (category c2)) ->
   tripleOf c1 <> tripleOf c2 -> rawKeyOf c1 <> rawKeyOf c2) /\
  makeChunkId (mkChunk (lit "a.txt") (lit "finance") 0 (content c1)) =
    lit "caff453d3c5a91f9e556155c1892c85e99b26cb8" /\
  makeChunkId (mkChunk (lit "a.txt") (lit "finance") 1 (content c1)) =
    lit "f316ff377123898a825827a0df69b2e9bafbf048".
Proof.
  unfold makeChunkId, tripleOf, rawKeyOf.
  split; [apply hex_length|].
  split; [apply hex_lower|].
  split; [reflexivity|].
  split; [reflexivity|].
  split; [intros [= -> -> ->]; reflexivity|].
  split; [intros ->; reflexivity|].
  split; [intros H; now apply rawKey_index in H|].
  split; [intros Hf Hc Hi H; apply rawKey_single_field in H; tauto|].
  split; [intros Hf Hi Hc H; apply rawKey_single_field in H; tauto|].
  split; [intros Hc Hi Hf H; apply rawKey_single_field in H; tauto|].
  split.
  - intros [[Hf1 Hf2]|[Hc1 Hc2]] Hne Hraw; apply Hne.
    + apply rawKey_inj_filenames in Hraw as (-> & -> & ->); auto.
    + apply rawKey_inj_categories in Hraw as (-> & -> & ->); auto.
  - split; vm_compute; reflexivity.
Qed.

Lemma makeChunkId_identity_witness :
  let c1 := mkChunk (lit "a|b.txt") (lit "finance") 0 (lit "Rates rose.") in
  let c2 := mkChunk (lit "a|b.txt") (lit "finance") 1 (lit "Fees dropped.") in
  tripleOf c1 <> tripleOf c2 /\ rawKeyOf c1 <> rawKeyOf c2.
Proof.
  intros c1 c2.
  assert (Hne : tripleOf c1 <> tripleOf c2) by (vm_compute; discriminate).
  split; [exact Hne|].
  destruct (makeChunkId_identity c1 c2)
    as (_ & _ & _ & _ & _ & _ & _ & _ & _ & _ & H & _).
  apply H; [right|exact Hne].
  split; vm_compute; intuition discriminate.
Defined.

(** C7 (as stated) fails: the triples (["a|b"], ["c"], 0) and (["a"],
    ["b|c"], 0) differ in file name and in category, and have the same
    identifier with certainty, since both raw keys are ["a|b|c|0"]. *)
Lemma makeChunkId_counterexample :
  let c1 := mkChunk (lit "a|b") (lit "c") 0 (lit "x") in
  let c2 := mkChunk (lit "a") (lit "b|c") 0 (lit "x") in
  tripleOf c1 <> tripleOf c2 /\ makeChunkId c1 = makeChunkId c2.
Proof.
  intros c1 c2. split; [vm_compute; discriminate|].
  unfold makeChunkId. apply (f_equal Sha1.hex). reflexivity.
Qed.

(** ** The arrays handed to the index *)

Lemma pushChunk_lengths (req : AddRequest) (chunk : EmbeddedChunk) :
  let n := if usable chunk then 1 else 0 in
  length (ids (pushChunk req chunk)) = length (ids req) + n /\
  length (embeddings (pushChunk req chunk)) = length (embeddings req) + n /\
  length (documents (pushChunk req chunk)) = length (documents req) + n /\
  length (metadatas (pushChunk req chunk)) = length (metadatas req) + n.
Proof.
  unfold pushChunk, usable.
  destruct (embedding chunk) as [[|x v]|]; simpl;
    rewrite ?length_app; simpl; lia.
Qed.

Lemma fold_pushChunk_lengths (embeddedChunks : list EmbeddedChunk)
  (req : AddRequest) :
  let n := usableCount embeddedChunks in
  let out := fold_left pushChunk embeddedChunks req in
  length (ids out) = length (ids req) + n /\
  length (embeddings out) = length (embeddings req) + n /\
  length (documents out) = length (documents req) + n /\
  length (metadatas out) = length (metadatas req) + n.
Proof.
  revert req. induction embeddedChunks as [|chunk rest IH]; intros req; simpl.
  - lia.
  - destruct (IH (pushChunk req chunk)) as (H1 & H2 & H3 & H4).
    destruct (pushChunk_lengths req chunk) as (K1 & K2 & K3 & K4).
    rewrite H1, H2, H3, H4, K1, K2, K3, K4.
    destruct (usable chunk); lia.
Qed.

Lemma collectArrays_lengths (embeddedChunks : list EmbeddedChunk) :
  let req := collectArrays embeddedChunks in
  length (ids req) = usableCount embeddedChunks /\
  length (embeddings req) = usableCount embeddedChunks /\
  length (documents req) = usableCount embeddedChunks /\
  length (metadatas req) = usableCount embeddedChunks.
Proof.
  unfold collectArrays.
  destruct (fold_pushChunk_lengths embeddedChunks (mkAdd [] [] [] []))
    as (H1 & H2 & H3 & H4).
  simpl in *. auto.
Qed.

(** How [saveRequest] ends, by the number of usable chunks. *)
Lemma saveRequest_cases (embeddedChunks : list EmbeddedChunk) :
  saveRequest embeddedChunks =
  match embeddedChunks with
  | [] => SaveSkipped
  | _ =>
      if (usableCount embeddedChunks =? 0)%nat then SaveThrew arraysMessage
      else SaveAdded (collectArrays embeddedChunks)
  end.
Proof.
  destruct embeddedChunks as [|chunk rest]; [reflexivity|].
  unfold saveRequest.
  destruct (collectArrays_lengths (chunk :: rest)) as (H1 & H2 & H3 & H4).
  cbv zeta in *. rewrite H1, H2, H3, H4.
  change (length (chunk :: rest) =? 0)%nat with false. cbv iota.
  rewrite Nat.eqb_refl. simpl.
  now rewrite !orb_false_r.
Qed.

(** C8 (as amended).  [saveToChroma] ends in one of three ways.  It
    calls the index once, with four arrays of one and the same non-zero
    length, the number of chunks with a non-empty embedding.  Or it
    throws ["Chroma data arrays mismatch or empty"] before any write:
    the chunks are there and none has a usable embedding.  Or, for an
    empty list of chunks, it returns at once, without error and without
    write.  A part of the chunks is never written when the call fails. *)
Theorem saveToChroma_outcome (policy : IdPolicy)
  (embeddedChunks : list EmbeddedChunk) (index : Index) :
  match saveToChroma policy embeddedChunks index with
  | (SaveAdded req, index') =>
      index' = collection_add policy req index /\
      length (ids req) = usableCount embeddedChunks /\
      length (embeddings req) = length (ids req) /\
      length (documents req) = length (ids req) /\
      length (metadatas req) = length (ids req) /\
      0 < length (ids req)
  | (SaveThrew message, index') =>
      message = arraysMessage /\ index' = index /\
      embeddedChunks <> [] /\ usableCount embeddedChunks = 0
  | (SaveSkipped, index') => index' = index /\ embeddedChunks = []
  end.
Proof.
  unfold saveToChroma. rewrite saveRequest_cases.
  destruct embeddedChunks as [|chunk rest]; [now split|].
  destruct (usableCount (chunk :: rest) =? 0)%nat eqn:Hn.
  - apply Nat.eqb_eq in Hn. repeat split; [discriminate | exact Hn].
  - apply Nat.eqb_neq in Hn.
    destruct (collectArrays_lengths (chunk :: rest)) as (H1 & H2 & H3 & H4).
    cbv zeta in *. repeat split; lia.
Qed.

(** C8 (as stated) fails: an empty list of embedded chunks is not an
    error for [saveToChroma]; the call returns without throwing. *)
Lemma saveToChroma_counterexample :
  (saveToChroma Overwrite [] ∅).1 = SaveSkipped /\
  ~ (exists message, (saveToChroma Overwrite [] ∅).1 = SaveThrew message).
Proof.
  split; [reflexivity|]. intros [message H]. discriminate H.
Qed.

(** ** The parameters of [/rechunk] *)

Lemma num_or_truthy (a b : number) :
  num_truthy b = true -> num_truthy (num_or a b) = true.
Proof.
  intros Hb. unfold num_or. destruct (num_truthy a) eqn:Ha; assumption.
Qed.

Lemma effective_truthy (v envValue : JsValue) (d : Z) :
  d <> 0%Z -> num_truthy (effective v envValue d) = true.
Proof.
  intros Hd. unfold effective. apply num_or_truthy. simpl.
  now apply negb_true_iff, Z.eqb_neq.
Qed.

Lemma effective_default (v envValue : JsValue) (d : Z) :
  num_truthy (parseInt v) = false ->
  effective v envValue d = num_or (parseInt envValue) (Num d).
Proof.
  intros H. unfold effective. unfold num_or at 2. now rewrite H.
Qed.

Lemma effective_cases (v envValue : JsValue) (d : Z) :
  (forall z, parseInt v = Num z -> z <> 0%Z ->
             effective v envValue d = Num z) /\
  (parseInt v = NaN \/ parseInt v = Num 0 ->
   effective v envValue d =
   match parseInt envValue with
   | Num z => if (z =? 0)%Z then Num d else Num z
   | NaN => Num d
   end).
Proof.
  unfold effective, num_or. split.
  - intros z -> Hz. simpl. apply Z.eqb_neq in Hz. rewrite Hz. simpl.
    now rewrite Hz.
  - intros [-> | ->]; simpl;
      destruct (parseInt envValue) as [|z]; simpl; try reflexivity;
      destruct (z =? 0)%Z eqn:Hz; simpl; try reflexivity; now rewrite Hz.
Qed.

(** C10.  In [POST /rechunk] a [chunkLength] or [chunkOverlap] of the
    body that [parseInt] reads as a number other than 0 is the length
    [L] or the overlap [O] in effect; one that it reads as 0 or [NaN]
    gives way to the value of the environment variable, and to 500 or 50
    when that too reads as 0 or [NaN]; the overlap in effect is never 0.
    Without filter, on a corpus that is not empty, the handler chunks the
    documents with [L] and [O], embeds the chunks, writes them and
    reports [L] and [O]: a body with [chunkOverlap: 0] is re-chunked
    with the default overlap. *)
Theorem rechunk_parameters {P : Type} (env : Env) (policy : IdPolicy)
  (embedder : str -> Prov P ProviderResult)
  (loadAllDocumentsWithCategory : Prov P LoadOutcome)
  (rq : RechunkRequest) (index : Index) (p : P) :
  let configured (envValue : JsValue) (d : Z) :=
    match parseInt envValue with
    | Num z => if (z =? 0)%Z then Num d else Num z
    | NaN => Num d
    end in
  let run (docs : list Document) (p1 : P) (L O : number) :=
    let chunks := chunkAllDocuments docs L O in
    let '(vectors, p2) := embedBatch embedder chunks p1 in
    let '(saved, index') :=
      saveToChroma policy (pushEmbedded chunks vectors) index in
    (Some (match saved with
           | SaveThrew message =>
               mkResponse 500 (BErrorDetails (lit "Rechunk failed") message)
           | _ =>
               mkResponse 200
                 (BRechunk (lit "Rechunk completed") (length docs)
                    (length chunks) L O)
           end, index'), p2) in
  let result :=
    rechunkHandler env policy embedder loadAllDocumentsWithCategory rq
      index p in
  exists L O,
    (forall z, parseInt (rq_chunkLength rq) = Num z -> z <> 0%Z ->
               L = Num z) /\
    (parseInt (rq_chunkLength rq) = NaN \/
     parseInt (rq_chunkLength rq) = Num 0 ->
     L = configured (env_CHUNK_LENGTH env) 500%Z) /\
    (forall z, parseInt (rq_chunkOverlap rq) = Num z -> z <> 0%Z ->
               O = Num z) /\
    (parseInt (rq_chunkOverlap rq) = NaN \/
     parseInt (rq_chunkOverlap rq) = Num 0 ->
     O = configured (env_CHUNK_OVERLAP env) 50%Z) /\
    parseInt (JNumber (Num 0)) = Num 0 /\
    O <> Num 0 /\ O <> NaN /\
    (forall docs p1,
       js_truthy (rq_specificCategory rq) = false ->
       js_truthy (rq_specificFile rq) = false ->
       loadAllDocumentsWithCategory p = (Loaded docs, p1) ->
       docs <> [] ->
       result = run docs p1 L O /\
       (rq_chunkOverlap rq = JNumber (Num 0) ->
        result = run docs p1 L (configured (env_CHUNK_OVERLAP env) 50%Z))).
Proof.
  intros configured run result.
  exists (rechunkLength env rq), (rechunkOverlap env rq).
  destruct (effective_cases (rq_chunkLength rq) (env_CHUNK_LENGTH env) 500)
    as [HL1 HL2].
  destruct (effective_cases (rq_chunkOverlap rq) (env_CHUNK_OVERLAP env) 50)
    as [HO1 HO2].
  split; [exact HL1|]. split; [exact HL2|].
  split; [exact HO1|]. split; [exact HO2|].
  split; [reflexivity|].
  pose proof (effective_truthy (rq_chunkOverlap rq) (env_CHUNK_OVERLAP env)
                50 ltac:(lia)) as Ht.
  split; [intros E; unfold rechunkOverlap in E; rewrite E in Ht;
          discriminate Ht|].
  split; [intros E; unfold rechunkOverlap in E; rewrite E in Ht;
          discriminate Ht|].
  intros docs p1 Hc Hf Hl Hd.
  assert (Hres : result =
                 run docs p1 (rechunkLength env rq) (rechunkOverlap env rq)).
  { subst result run. unfold rechunkHandler, bind. rewrite Hl, Hc, Hf.
    destruct docs as [|d docs']; [now destruct Hd|].
    cbn [length Nat.eqb]. rewrite embedAllChunks_spec.
    destruct (embedBatch embedder _ p1) as [vectors p2].
    destruct (saveToChroma policy _ index) as [[|message|req] index'];
      reflexivity. }
  split; [exact Hres|].
  intros H0. rewrite Hres. f_equal. apply HO2. right.
  rewrite H0. reflexivity.
Qed.

Lemma rechunk_parameters_witness :
  let env := mkEnv (JString (lit "20")) (JString (lit "5")) in
  let text := lit "Rates rose. Fees dropped. Staff left." in
  let rq := mkRechunk JUndefined (JNumber (Num 0)) JUndefined JUndefined in
  let result :=
    rechunkHandler env Overwrite byLength
      (corpus [mkDocument (lit "a.txt") (lit "finance") text]) rq ∅ 0 in
  fst <$> result.1 =
    Some (mkResponse 200
            (BRechunk (lit "Rechunk completed") 1 3 (Num 20) (Num 5))) /\
  storedDocument (lit "a.txt") (lit "finance") 1 result.1 =
    Some (lit "ose.Fees dropped.").
Proof.
  intros env text rq result.
  destruct (rechunk_parameters env Overwrite byLength
              (corpus [mkDocument (lit "a.txt") (lit "finance") text]) rq ∅ 0)
    as (L & O & _ & HL & _ & _ & _ & _ & _ & Hrun).
  destruct (Hrun [mkDocument (lit "a.txt") (lit "finance") text] 0
              eq_refl eq_refl eq_refl ltac:(discriminate)) as [_ H0].
  subst result. rewrite (H0 eq_refl), (HL (or_introl eq_refl)).
  vm_compute. split; reflexivity.
Defined.

(** ** [/prompt] *)

Lemma truthy_of_trim (s : str) : truthy (trim s) = true -> truthy s = true.
Proof. destruct s; [discriminate | reflexivity]. Qed.

(** [/prompt] from a well-formed question up to the call of the
    generative model. *)
Lemma promptHandler_steps {P : Type}
  (embedder : str -> Prov P ProviderResult)
  (query : vector -> Prov P QueryOutcome)
  (generate : str -> Prov P GenOutcome)
  (q : str) (x : N) (v : vector) (p p1 p2 : P)
  (documents0 : option (list JsValue))
  (metadatas0 : option (list (option QueryMeta))) :
  truthy (trim q) = true ->
  embedChunk embedder q p = (Some (x :: v), p1) ->
  query (x :: v) p1 = (QueryResults documents0 metadatas0, p2) ->
  promptHandler embedder query generate (JString q) p =
  let '(response, p3) :=
    generate (promptText q (contextOf (default [] documents0)
                              (default [] metadatas0))) p2 in
  (promptAnswer (default [] metadatas0) response, p3).
Proof.
  intros Hq He Hr. unfold promptHandler.
  assert (Hj : js_truthy (JString q) = true) by apply (truthy_of_trim q Hq).
  rewrite Hj, Hq. cbn [negb].
  unfold bind at 1. cbv beta. rewrite He.
  unfold bind at 1. cbv beta. rewrite Hr.
  unfold bind. cbv beta.
  destruct (generate _ p2) as [response p3].
  unfold promptAnswer, ret.
  destruct response as [message|text]; [reflexivity|].
  destruct (sourcesOf (default [] metadatas0)); reflexivity.
Qed.

(** The prompt ends with the question, the line ["Context:"] and the
    context as it is. *)
Lemma promptText_shape :
  exists pre,
    forall question contextText,
      promptText question contextText =
      pre ++ question ++ [newline; newline] ++ lit "Context:" ++ [newline]
      ++ contextText.
Proof.
  exists (lit "You are a retrieval-augmented assistant." ++ [newline]
          ++ lit "Answer ONLY using the provided context." ++ [newline]
          ++ lit "If the answer is not present, reply exactly:" ++ [newline]
          ++ [quote] ++ notAvailable ++ [quote] ++ [newline; newline]
          ++ lit "Question:" ++ [newline]).
  intros question contextText. reflexivity.
Qed.

(** C4.  When the index returns no document for a well-formed question,
    the context is the sentence ["No relevant documents found."], not the
    empty string; the generative model is called, after the query, with
    a prompt that ends with the question, the line ["Context:"] and that
    sentence; and the outcome of this call decides the response. *)
Theorem prompt_empty_retrieval {P : Type}
  (embedder : str -> Prov P ProviderResult)
  (query : vector -> Prov P QueryOutcome)
  (generate : str -> Prov P GenOutcome)
  (q : str) (x : N) (v : vector) (p p1 p2 : P)
  (documents0 : option (list JsValue))
  (metadatas0 : option (list (option QueryMeta))) :
  truthy (trim q) = true ->
  embedChunk embedder q p = (Some (x :: v), p1) ->
  query (x :: v) p1 = (QueryResults documents0 metadatas0, p2) ->
  default [] documents0 = [] ->
  let sentinel := lit "No relevant documents found." in
  contextOf (default [] documents0) (default [] metadatas0) = sentinel /\
  sentinel <> [] /\
  (exists pre,
     promptText q sentinel =
     pre ++ q ++ [newline; newline] ++ lit "Context:" ++ [newline]
     ++ sentinel) /\
  promptHandler embedder query generate (JString q) p =
  let '(response, p3) := generate (promptText q sentinel) p2 in
  (promptAnswer (default [] metadatas0) response, p3).
Proof.
  intros Hq He Hr Hd sentinel.
  assert (Hc : contextOf (default [] documents0) (default [] metadatas0)
               = sentinel) by (rewrite Hd; reflexivity).
  split; [exact Hc|]. split; [discriminate|]. split.
  - destruct promptText_shape as [pre Hpre]. exists pre. apply Hpre.
  - rewrite (promptHandler_steps embedder query generate q x v p p1 p2
               documents0 metadatas0 Hq He Hr).
    now rewrite Hc.
Qed.

Lemma prompt_empty_retrieval_witness :
  let q := lit "What changed?" in
  promptHandler unitEmbedder emptyQuery (loggingGenerate (Some (lit "Nothing.")))
    (JString q) [] =
  (json (BAnswer (lit "Nothing.") []),
   [promptText q (lit "No relevant documents found.")]).
Proof.
  intros q.
  destruct (prompt_empty_retrieval unitEmbedder emptyQuery
              (loggingGenerate (Some (lit "Nothing.")))
              q 1%N [] [] [] [] (Some []) (Some [])
              eq_refl eq_refl eq_refl eq_refl)
    as (_ & _ & _ & H).
  rewrite H. reflexivity.
Defined.

Lemma sourcesOf_objects (ms : list QueryMeta) :
  sourcesOf (map Some ms) = Some (map sourceOfMeta ms).
Proof.
  induction ms as [|m ms IH]; simpl; [reflexivity|]. now rewrite IH.
Qed.

Lemma sourcesOf_null (metas : list (option QueryMeta)) :
  In None metas -> sourcesOf metas = None.
Proof.
  induction metas as [|[m|] metas IH]; simpl; [intros []| |reflexivity].
  intros [H|H]; [discriminate|]. now rewrite IH.
Qed.

Lemma promptHandler_no_embedding {P : Type}
  (embedder : str -> Prov P ProviderResult)
  (query : vector -> Prov P QueryOutcome)
  (generate : str -> Prov P GenOutcome) (q : str) (p p1 : P)
  (queryEmbedding : option vector) :
  truthy (trim q) = true ->
  embedChunk embedder q p = (queryEmbedding, p1) ->
  queryEmbedding = None \/ queryEmbedding = Some [] ->
  promptHandler embedder query generate (JString q) p =
  (mkResponse 500 (BError (lit "Failed to embed question")), p1).
Proof.
  intros Hq He Hv. unfold promptHandler.
  assert (Hj : js_truthy (JString q) = true) by apply (truthy_of_trim q Hq).
  rewrite Hj, Hq. cbn [negb]. unfold bind at 1. cbv beta. rewrite He.
  now destruct Hv as [-> | ->].
Qed.

Lemma promptHandler_query_throws {P : Type}
  (embedder : str -> Prov P ProviderResult)
  (query : vector -> Prov P QueryOutcome)
  (generate : str -> Prov P GenOutcome) (q : str) (x : N) (v : vector)
  (p p1 p2 : P) (message : str) :
  truthy (trim q) = true ->
  embedChunk embedder q p = (Some (x :: v), p1) ->
  query (x :: v) p1 = (QueryThrows message, p2) ->
  promptHandler embedder query generate (JString q) p =
  (mkResponse 500 (BErrorDetails (lit "Prompt failed") message), p2).
Proof.
  intros Hq He Hr. unfold promptHandler.
  assert (Hj : js_truthy (JString q) = true) by apply (truthy_of_trim q Hq).
  rewrite Hj, Hq. cbn [negb]. unfold bind at 1. cbv beta. rewrite He.
  unfold bind at 1. cbv beta. now rewrite Hr.
Qed.

(** C5 (as amended).  For a well-formed question: once the question is
    embedded and the index has answered, a response of the generative
    model without text, or with an empty text, is answered with status
    200 and the sentence ["The answer is not available in the provided
    documents."], and a response with a text with that text, provided
    every metadata entry returned by the index is an object; a call of
    the generative model that throws is answered with status 500 and the
    body [{error: "Prompt failed", details}], [details] being the message
    of the error.  The status is 500 as well when the question cannot be
    embedded, when the query of the index throws, and when a metadata
    entry is [null]. *)
Theorem prompt_generation_outcome {P : Type}
  (embedder : str -> Prov P ProviderResult)
  (query : vector -> Prov P QueryOutcome)
  (generate : str -> Prov P GenOutcome) (q : str) (p : P) :
  truthy (trim q) = true ->
  let result := promptHandler embedder query generate (JString q) p in
  let fallback :=
    lit "The answer is not available in the provided documents." in
  (forall queryEmbedding p1,
     embedChunk embedder q p = (queryEmbedding, p1) ->
     queryEmbedding = None \/ queryEmbedding = Some [] ->
     result =
     (mkResponse 500 (BError (lit "Failed to embed question")), p1)) /\
  (forall x v p1 p2 message,
     embedChunk embedder q p = (Some (x :: v), p1) ->
     query (x :: v) p1 = (QueryThrows message, p2) ->
     result =
     (mkResponse 500 (BErrorDetails (lit "Prompt failed") message), p2)) /\
  (forall x v p1 p2 p3 documents0 metadatas0 response,
     embedChunk embedder q p = (Some (x :: v), p1) ->
     query (x :: v) p1 = (QueryResults documents0 metadatas0, p2) ->
     generate (promptText q (contextOf (default [] documents0)
                               (default [] metadatas0))) p2
       = (response, p3) ->
     (forall message,
        response = GenThrows message ->
        result =
        (mkResponse 500 (BErrorDetails (lit "Prompt failed") message), p3)) /\
     (forall ms,
        default [] metadatas0 = map Some ms ->
        response = GenResponse None \/ response = GenResponse (Some []) ->
        result =
        (mkResponse 200 (BAnswer fallback (map sourceOfMeta ms)), p3)) /\
     (forall ms c t,
        default [] metadatas0 = map Some ms ->
        response = GenResponse (Some (c :: t)) ->
        result =
        (mkResponse 200 (BAnswer (c :: t) (map sourceOfMeta ms)), p3)) /\
     (forall text,
        response = GenResponse text ->
        In None (default [] metadatas0) ->
        result =
        (mkResponse 500
           (BErrorDetails (lit "Prompt failed")
              (lit "Cannot read properties of null (reading 'filename')")),
         p3))).
Proof.
  intros Hq result fallback. subst result fallback.
  split; [|split].
  - intros queryEmbedding p1 He Hv.
    now apply (promptHandler_no_embedding embedder query generate q p p1
                 queryEmbedding).
  - intros x v p1 p2 message He Hr.
    now apply (promptHandler_query_throws embedder query generate q x v
                 p p1 p2 message).
  - intros x v p1 p2 p3 documents0 metadatas0 response He Hr Hg.
    rewrite (promptHandler_steps embedder query generate q x v p p1 p2
               documents0 metadatas0 Hq He Hr).
    rewrite Hg. unfold promptAnswer.
    split; [now intros message ->|].
    split; [|split].
    + intros ms -> [-> | ->]; now rewrite sourcesOf_objects.
    + intros ms c t -> ->. now rewrite sourcesOf_objects.
    + intros text -> Hn. now rewrite (sourcesOf_null _ Hn).
Qed.

Lemma prompt_generation_outcome_witness :
  let q := lit "What changed?" in
  let prompt :=
    promptText q
      (contextOf [JString (lit "Rates rose.")]
         [Some (mkQueryMeta (JString (lit "a.txt")) (JString (lit "finance"))
                  (JNumber (Num 0)))]) in
  promptHandler unitEmbedder foundQuery (loggingGenerate None) (JString q) [] =
  (mkResponse 200
     (BAnswer notAvailable
        [mkSource (JString (lit "a.txt")) (JString (lit "finance"))
           (JNumber (Num 0))]),
   [prompt]).
Proof.
  intros q prompt.
  destruct (prompt_generation_outcome unitEmbedder foundQuery
              (loggingGenerate None) q [] eq_refl) as (_ & _ & H).
  destruct (H 1%N [] [] [] [prompt]
              (Some [JString (lit "Rates rose.")])
              (Some [Some (mkQueryMeta (JString (lit "a.txt"))
                             (JString (lit "finance")) (JNumber (Num 0)))])
              (GenResponse None) eq_refl eq_refl eq_refl)
    as (_ & Hf & _).
  apply (Hf [mkQueryMeta (JString (lit "a.txt")) (JString (lit "finance"))
               (JNumber (Num 0))]); [reflexivity|].
  left. reflexivity.
Defined.

(** C5 (as stated) fails: retrieval succeeds, the generative model
    throws, and the response is the status 500 with the error's message,
    not an answer with the fallback sentence. *)
Lemma prompt_generation_counterexample :
  let result :=
    promptHandler unitEmbedder foundQuery
      (throwingGenerate (lit "quota exceeded"))
      (JString (lit "What changed?")) [] in
  status result.1 = 500 /\
  body result.1 =
    BErrorDetails (lit "Prompt failed") (lit "quota exceeded") /\
  length result.2 = 1.
Proof.
  vm_compute. repeat split.
Qed.

(** ** [/upload] against [/rechunk] *)

(** C6 (the code departs from it).  [/upload] calls [chunkText] without
    overlap, [/rechunk] chunks with the overlap in effect, which is never
    0: with [CHUNK_LENGTH=20] and [CHUNK_OVERLAP=5] the same file with
    the same text gets the chunk ["Fees dropped."] under index 1 from
    [/upload] and ["ose.Fees dropped."] from [/rechunk], stored under the
    same identifier. *)
Theorem upload_rechunk_diverge :
  let env := mkEnv (JString (lit "20")) (JString (lit "5")) in
  let text := lit "Rates rose. Fees dropped. Staff left." in
  let name := lit "a.txt" in
  let category := lit "finance" in
  let uploaded :=
    (uploadHandler env Overwrite byLength (storeGiving text)
       (Some category) (Some (mkFile name (lit "tmp_uploads/1"))) ∅ 0).1 in
  let rechunked :=
    (rechunkHandler env Overwrite byLength
       (corpus [mkDocument name category text]) noParameters ∅ 0).1 in
  chunkText text (CHUNK_LENGTH env) (Num 0) =
    [lit "Rates rose."; lit "Fees dropped."; lit "Staff left."] /\
  map content (chunkAllDocuments [mkDocument name category text]
                 (rechunkLength env noParameters)
                 (rechunkOverlap env noParameters)) =
    [lit "Rates rose."; lit "ose.Fees dropped."; lit "ped.Staff left."] /\
  storedDocument name category 1 uploaded = Some (lit "Fees dropped.") /\
  storedDocument name category 1 rechunked = Some (lit "ose.Fees dropped.").
Proof.
  vm_compute. repeat split.
Qed.

(** ** The filters of [/rechunk] *)

(** C9 (the code departs from it).  With a truthy [specificCategory] or
    [specificFile], [/rechunk] assigns to the constant [docs]: whatever
    the documents found, also when none would match, the response is the
    status 500 with [{error: "Rechunk failed", details: "Assignment to
    constant variable."}], not 404, and the index is left as it was. *)
Theorem rechunk_filter_fails {P : Type} (env : Env) (policy : IdPolicy)
  (embedder : str -> Prov P ProviderResult)
  (loadAllDocumentsWithCategory : Prov P LoadOutcome)
  (rq : RechunkRequest) (index : Index) (p p' : P) (docs : list Document) :
  js_truthy (rq_specificCategory rq) = true \/
  js_truthy (rq_specificFile rq) = true ->
  loadAllDocumentsWithCategory p = (Loaded docs, p') ->
  rechunkHandler env policy embedder loadAllDocumentsWithCategory rq index p =
  (Some (mkResponse 500
           (BErrorDetails (lit "Rechunk failed") constAssignment), index),
   p').
Proof.
  intros Hf Hl. unfold rechunkHandler, bind. rewrite Hl.
  destruct (js_truthy (rq_specificCategory rq)); [reflexivity|].
  destruct Hf as [Hf|Hf]; [discriminate|].
  now rewrite Hf.
Qed.

Lemma rechunk_filter_fails_witness :
  rechunkHandler (mkEnv JUndefined JUndefined) Overwrite byLength
    (corpus [mkDocument (lit "a.txt") (lit "finance") (lit "Rates rose.")])
    (mkRechunk JUndefined JUndefined JUndefined (JString (lit "nope"))) ∅ 0 =
  (Some (mkResponse 500
           (BErrorDetails (lit "Rechunk failed") constAssignment), ∅), 0).
Proof.
  apply (rechunk_filter_fails (mkEnv JUndefined JUndefined) Overwrite byLength
           (corpus [mkDocument (lit "a.txt") (lit "finance")
                      (lit "Rates rose.")])
           (mkRechunk JUndefined JUndefined JUndefined (JString (lit "nope")))
           ∅ 0 0
           [mkDocument (lit "a.txt") (lit "finance") (lit "Rates rose.")]).
  - left. reflexivity.
  - reflexivity.
Defined.

(** ** Further properties of [trim] *)

Lemma trimStart_blank (s : str) : blank s = true -> trimStart s = [].
Proof.
  induction s as [|c r IH]; simpl; [reflexivity|].
  destruct (isWhiteSpace c); [exact IH | discriminate].
Qed.

Lemma trim_blank (s : str) : blank s = true -> trim s = [].
Proof. intros H. unfold trim. now rewrite trimStart_blank. Qed.

Lemma trimStart_head (s : str) :
  trimStart s = [] \/
  exists c r, trimStart s = c :: r /\ isWhiteSpace c = false.
Proof.
  induction s as [|c r IH]; simpl; [now left|].
  destruct (isWhiteSpace c) eqn:Hc; [exact IH|].
  right. now exists c, r.
Qed.

Lemma trimStart_fixed (c : ascii) (r : str) :
  isWhiteSpace c = false -> trimStart (c :: r) = c :: r.
Proof. intros Hc. simpl. now rewrite Hc. Qed.

Lemma trimStart_idempotent (s : str) : trimStart (trimStart s) = trimStart s.
Proof.
  destruct (trimStart_head s) as [H|(c & r & H & Hc)]; rewrite H;
    [reflexivity | now apply trimStart_fixed].
Qed.

Lemma trimStart_snoc_black (s : str) (c : ascii) :
  isWhiteSpace c = false -> trimStart (s ++ [c]) = trimStart s ++ [c].
Proof.
  intros Hc. induction s as [|a r IH]; simpl.
  - now rewrite Hc.
  - destruct (isWhiteSpace a); [exact IH | reflexivity].
Qed.

Lemma trimEnd_cons_black (c : ascii) (r : str) :
  isWhiteSpace c = false -> trimEnd (c :: r) = c :: trimEnd r.
Proof.
  intros Hc. unfold trimEnd. simpl.
  rewrite trimStart_snoc_black by exact Hc.
  now rewrite rev_app_distr.
Qed.

Lemma trimEnd_idempotent (s : str) : trimEnd (trimEnd s) = trimEnd s.
Proof.
  unfold trimEnd. now rewrite rev_involutive, trimStart_idempotent.
Qed.

(** The trimmed string is empty or begins with a code unit that is not
    white space. *)
Lemma trim_head (s : str) :
  trim s = [] \/
  exists c r, trimStart s = c :: r /\ isWhiteSpace c = false /\
              trim s = c :: trimEnd r.
Proof.
  unfold trim.
  destruct (trimStart_head s) as [H|(c & r & H & Hc)]; rewrite H.
  - now left.
  - right. exists c, r. repeat split; try assumption.
    now apply trimEnd_cons_black.
Qed.

Lemma trim_idempotent (s : str) : trim (trim s) = trim s.
Proof.
  destruct (trim_head s) as [H|(c & r & _ & Hc & H)]; rewrite H;
    [reflexivity|].
  unfold trim. rewrite trimStart_fixed by exact Hc.
  rewrite trimEnd_cons_black by exact Hc.
  now rewrite trimEnd_idempotent.
Qed.

Lemma trim_black (c : ascii) (r : str) :
  isWhiteSpace c = false -> truthy (trim (c :: r)) = true.
Proof.
  intros Hc. unfold trim. rewrite trimStart_fixed by exact Hc.
  now rewrite trimEnd_cons_black.
Qed.

(** ** Further properties of the chunker *)

Lemma trimmed_push (cur : str) : truthy (trim cur) = true -> trimmed (trim cur).
Proof.
  intros H. split; [|apply trim_idempotent].
  intros E. rewrite E in H. discriminate.
Qed.

Lemma chunkStep_trimmed (size overlap : number) (st : list str * str)
  (sentence : str) :
  Forall trimmed st.1 -> Forall trimmed (chunkStep size overlap st sentence).1.
Proof.
  destruct st as [chunks cur]. cbn [fst]. intros H. unfold chunkStep.
  destruct (num_gt (Num (Z.of_nat (length (cur ++ sentence)))) size);
    cbn [fst]; [|exact H].
  destruct (truthy (trim cur)) eqn:Ht; [|exact H].
  apply Forall_app. split; [exact H|].
  constructor; [now apply trimmed_push | constructor].
Qed.

Lemma chunkFold_trimmed (size overlap : number) (l : list str)
  (st : list str * str) :
  Forall trimmed st.1 ->
  Forall trimmed (fold_left (chunkStep size overlap) l st).1.
Proof.
  revert st. induction l as [|s l IH]; intros st H; simpl; [exact H|].
  apply IH. now apply chunkStep_trimmed.
Qed.

(** X1.  No chunk is empty, and none begins or ends with white space,
    whatever the size and the overlap. *)
Theorem chunkText_trimmed (text : str) (size overlap : number) :
  Forall trimmed (chunkText text size overlap).
Proof.
  unfold chunkText, chunkLoop.
  pose proof (chunkFold_trimmed size overlap (sentencesOf text) ([], []))
    as H.
  destruct (fold_left _ _ _) as [chunks cur]. simpl in H.
  specialize (H ltac:(constructor)).
  destruct (truthy (trim cur)) eqn:Ht; [|exact H].
  apply Forall_app. split; [exact H|].
  constructor; [now apply trimmed_push | constructor].
Qed.

Lemma collapse_blank (s : str) : blank s = true -> collapse true s = [].
Proof.
  induction s as [|c r IH]; simpl; [reflexivity|].
  destruct (isWhiteSpace c); [exact IH | discriminate].
Qed.

Lemma sentencesOf_blank (text : str) :
  blank text = true -> sentencesOf text = [[]] \/ sentencesOf text = [[space]].
Proof.
  unfold sentencesOf, normalizeWhitespace.
  destruct text as [|c r]; simpl; [now left|].
  destruct (isWhiteSpace c); [|discriminate].
  intros H. right. now rewrite collapse_blank.
Qed.

(** X2.  A text of white space only, or an empty text, has no chunk. *)
Theorem chunkText_blank (text : str) (size overlap : number) :
  blank text = true -> chunkText text size overlap = [].
Proof.
  intros H. unfold chunkText, chunkLoop.
  destruct (sentencesOf_blank text H) as [-> | ->];
    destruct size as [|z]; destruct overlap as [|o]; simpl;
    try reflexivity;
    destruct (z <? _)%Z; simpl; try reflexivity;
    destruct (0 <? o)%Z; reflexivity.
Qed.

Lemma chunkText_blank_witness :
  chunkText [space; newline; space] (Num 500) (Num 50) = [].
Proof. apply chunkText_blank. reflexivity. Defined.

Lemma chunksOfDocument_lookup (size overlap : number) (doc : Document)
  (i : nat) (c : Chunk) :
  chunksOfDocument size overlap doc !! i = Some c ->
  filename c = doc_filename doc /\ category c = doc_category doc /\
  chunkIndex c = i /\
  chunkText (doc_content doc) size overlap !! i = Some (content c).
Proof.
  unfold chunksOfDocument. rewrite list_lookup_imap.
  destruct (chunkText (doc_content doc) size overlap !! i) as [x|];
    simpl; [|discriminate].
  intros [= <-]. auto.
Qed.

(** X3.  The chunks of one document carry the document's file name and
    category and the indices 0, 1, 2, ... in order, so that their raw
    keys are pairwise different. *)
Theorem chunksOfDocument_keys (size overlap : number) (doc : Document) :
  map chunkIndex (chunksOfDocument size overlap doc) =
    seq 0 (length (chunkText (doc_content doc) size overlap)) /\
  map content (chunksOfDocument size overlap doc) =
    chunkText (doc_content doc) size overlap /\
  NoDup (map rawKeyOf (chunksOfDocument size overlap doc)).
Proof.
  split; [|split].
  - apply list_eq. intros i.
    rewrite list_lookup_fmap. unfold chunksOfDocument.
    rewrite list_lookup_imap.
    destruct (chunkText (doc_content doc) size overlap !! i) as [x|] eqn:Hx;
      simpl.
    + symmetry. apply lookup_seq. split; [reflexivity|].
      now apply lookup_lt_Some in Hx.
    + symmetry. apply lookup_ge_None. rewrite length_seq.
      now apply lookup_ge_None in Hx.
  - apply list_eq. intros i.
    rewrite list_lookup_fmap. unfold chunksOfDocument.
    rewrite list_lookup_imap.
    now destruct (chunkText (doc_content doc) size overlap !! i).
  - apply NoDup_alt. intros i j x Hi Hj.
    rewrite list_lookup_fmap in Hi, Hj.
    destruct (chunksOfDocument size overlap doc !! i) as [ci|] eqn:Hci;
      [|discriminate].
    destruct (chunksOfDocument size overlap doc !! j) as [cj|] eqn:Hcj;
      [|discriminate].
    apply chunksOfDocument_lookup in Hci as (Hf & Hc & Hidx & _).
    apply chunksOfDocument_lookup in Hcj as (Hf' & Hc' & Hidx' & _).
    simpl in Hi, Hj. injection Hi as Hi. injection Hj as Hj.
    rewrite <- Hj in Hi. unfold rawKeyOf, rawKey in Hi.
    rewrite Hf, Hc, Hf', Hc', Hidx, Hidx' in Hi.
    repeat apply app_inv_head in Hi.
    now apply natToString_inj.
Qed.

(** ** Further properties of the write step *)

Lemma fold_pushChunk_contents (embeddedChunks : list EmbeddedChunk)
  (req : AddRequest) :
  let kept := keptChunks embeddedChunks in
  let out := fold_left pushChunk embeddedChunks req in
  ids out = ids req ++ map (fun e => makeChunkId (source e)) kept /\
  embeddings out = embeddings req ++ map (fun e => default [] (embedding e)) kept /\
  documents out = documents req ++ map (fun e => content (source e)) kept /\
  metadatas out = metadatas req ++ map metadataOf kept.
Proof.
  revert req. induction embeddedChunks as [|chunk rest IH]; intros req.
  - simpl. now rewrite !app_nil_r.
  - simpl. destruct (IH (pushChunk req chunk)) as (H1 & H2 & H3 & H4).
    rewrite H1, H2, H3, H4. clear.
    unfold keptChunks, pushChunk, usable, metadataOf. simpl.
    destruct (embedding chunk) as [[|x v]|] eqn:He; simpl;
      rewrite ?He; repeat split; rewrite <- ?app_assoc; reflexivity.
Qed.

(** X4.  The four arrays list, in the order of the input, the chunks
    with a non-empty embedding: identifier, embedding, text and metadata
    of the same chunk stand at the same position. *)
Theorem collectArrays_contents (embeddedChunks : list EmbeddedChunk) :
  let kept := keptChunks embeddedChunks in
  let req := collectArrays embeddedChunks in
  ids req = map (fun e => makeChunkId (source e)) kept /\
  embeddings req = map (fun e => default [] (embedding e)) kept /\
  documents req = map (fun e => content (source e)) kept /\
  metadatas req = map metadataOf kept /\
  Forall (fun v => v <> []) (embeddings req).
Proof.
  destruct (fold_pushChunk_contents embeddedChunks (mkAdd [] [] [] []))
    as (H1 & H2 & H3 & H4).
  cbv zeta. unfold collectArrays. simpl in *.
  repeat split; try assumption.
  rewrite H2. apply List.Forall_map. unfold keptChunks.
  apply List.Forall_forall. intros e He.
  apply List.filter_In in He as [_ He]. unfold usable in He.
  destruct (embedding e) as [[|x v]|]; simpl; discriminate.
Qed.

Lemma entriesOf_keys (i : list str) (e : list vector) (d : list str)
  (m : list Metadata) :
  length e = length i -> length d = length i -> length m = length i ->
  map fst (entriesOf i e d m) = i.
Proof.
  revert e d m. induction i as [|k i IH]; intros [|x e] [|y d] [|z m];
    simpl; try discriminate; try reflexivity.
  intros He Hd Hm. f_equal. apply IH; lia.
Qed.

Lemma fold_putAt_absent (policy : IdPolicy) (k : str)
  (entries : list (str * StoredRecord)) (x : option StoredRecord) :
  ~ In k (map fst entries) -> fold_left (putAt policy k) entries x = x.
Proof.
  revert x. induction entries as [|e l IH]; intros x Hk; simpl;
    [reflexivity|].
  simpl in Hk. rewrite IH by tauto.
  unfold putAt. destruct (decide (e.1 = k)); [|reflexivity].
  exfalso. apply Hk. now left.
Qed.

Lemma fold_putAt_some (policy : IdPolicy) (k : str)
  (entries : list (str * StoredRecord)) (x : option StoredRecord) :
  is_Some x -> is_Some (fold_left (putAt policy k) entries x).
Proof.
  revert x. induction entries as [|e l IH]; intros x Hx; simpl;
    [exact Hx|].
  apply IH. unfold putAt. destruct (decide (e.1 = k)); [|exact Hx].
  destruct policy, x; eauto.
Qed.

Lemma fold_putAt_present (policy : IdPolicy) (k : str)
  (entries : list (str * StoredRecord)) (x : option StoredRecord) :
  In k (map fst entries) -> is_Some (fold_left (putAt policy k) entries x).
Proof.
  revert x. induction entries as [|e l IH]; intros x Hk; simpl;
    [destruct Hk|].
  destruct Hk as [Hk|Hk]; [|now apply IH].
  apply fold_putAt_some. unfold putAt.
  destruct (decide (e.1 = k)); [|contradiction].
  destruct policy, x; eauto.
Qed.

(** X5.  A successful write touches the records of the written
    identifiers only: every other identifier keeps what it had, every
    written identifier has a record afterwards, and no record
    disappears. *)
Theorem saveToChroma_frame (policy : IdPolicy)
  (embeddedChunks : list EmbeddedChunk) (index index' : Index)
  (req : AddRequest) (k : str) :
  saveToChroma policy embeddedChunks index = (SaveAdded req, index') ->
  (~ In k (ids req) -> index' !! k = index !! k) /\
  (In k (ids req) -> is_Some (index' !! k)) /\
  (is_Some (index !! k) -> is_Some (index' !! k)).
Proof.
  intros H.
  pose proof (saveToChroma_outcome policy embeddedChunks index) as Hout.
  rewrite H in Hout. destruct Hout as (-> & _ & He & Hd & Hm & _).
  unfold collection_add. rewrite fold_putRecord_lookup.
  pose proof (entriesOf_keys (ids req) (embeddings req) (documents req)
                (metadatas req) He Hd Hm) as Hkeys.
  repeat split.
  - intros Hk. apply fold_putAt_absent. now rewrite Hkeys.
  - intros Hk. apply fold_putAt_present. now rewrite Hkeys.
  - apply fold_putAt_some.
Qed.

Lemma saveToChroma_frame_witness :
  let e := mkEmbedded (mkChunk (lit "a.txt") (lit "finance") 0 (lit "Rates."))
             (Some [1%N]) in
  let k := lit "another identifier" in
  (saveToChroma KeepExisting [e] ∅).2 !! k = (∅ : Index) !! k.
Proof.
  intros e k.
  assert (Hs : saveToChroma KeepExisting [e] ∅ =
               (SaveAdded (collectArrays [e]),
                (saveToChroma KeepExisting [e] ∅).2))
    by (unfold saveToChroma; rewrite saveRequest_cases; reflexivity).
  destruct (saveToChroma_frame KeepExisting [e] ∅
              (saveToChroma KeepExisting [e] ∅).2
              (collectArrays [e]) k Hs) as [H _].
  apply H. vm_compute. intros [E|[]]. discriminate E.
Defined.

(** ** Further properties of [/upload] and [/rechunk] *)

Lemma pushEmbedded_none (batch : list Chunk) (vectors : list (option vector)) :
  Forall (fun v => v = None) vectors -> pushEmbedded batch vectors = [].
Proof.
  intros H. revert batch. induction H as [|v vs -> _ IH]; intros [|c batch];
    simpl; auto.
Qed.



(** X7.  An upload whose text is empty or white space only is refused
    with status 400 before any embedding is asked for: with the message
    about the missing text when the text is empty, with the message about
    the missing chunks otherwise. *)
Theorem uploadHandler_rejects_blank {P : Type} (env : Env) (policy : IdPolicy)
  (embedder : str -> Prov P ProviderResult)
  (storeAndRead : str -> UploadedFile -> Prov P StoreOutcome)
  (c : ascii) (cs : str) (f : UploadedFile) (index : Index) (p p1 : P)
  (text : str) :
  storeAndRead (c :: cs) f p = (StoreText text, p1) ->
  blank text = true ->
  uploadHandler env policy embedder storeAndRead (Some (c :: cs)) (Some f)
    index p =
  (Some (mkResponse 400
           (BError (if truthy text
                    then lit "No chunks could be created from this file."
                    else lit "Uploaded file has no extractable text.")),
         index), p1).
Proof.
  intros Hs Hb. unfold uploadHandler, bind. rewrite Hs.
  destruct (truthy text); cbn [negb]; [|reflexivity].
  now rewrite (chunkText_blank text (CHUNK_LENGTH env) (Num 0) Hb).
Qed.

Lemma uploadHandler_rejects_blank_witness :
  uploadHandler (mkEnv JUndefined JUndefined) Overwrite byLength
    (storeGiving [space; newline]) (Some (lit "finance"))
    (Some (mkFile (lit "a.txt") (lit "tmp_uploads/1"))) ∅ 0 =
  (Some (mkResponse 400
           (BError (lit "No chunks could be created from this file.")), ∅),
   0).
Proof.
  apply (uploadHandler_rejects_blank (mkEnv JUndefined JUndefined) Overwrite
           byLength (storeGiving [space; newline]) "f"%char (lit "inance")
           (mkFile (lit "a.txt") (lit "tmp_uploads/1")) ∅ 0 0
           [space; newline]); reflexivity.
Defined.

(** X8.  When the embedding of every chunk fails, [/upload] answers 500
    with ["Failed to generate embeddings for file."], whereas [/rechunk]
    answers 200 with ["Rechunk completed"] and the counts of documents
    and chunks; neither writes to the index. *)
Theorem no_embedding_outcomes {P : Type} (env : Env) (policy : IdPolicy)
  (embedder : str -> Prov P ProviderResult)
  (storeAndRead : str -> UploadedFile -> Prov P StoreOutcome)
  (loadAllDocumentsWithCategory : Prov P LoadOutcome) :
  (forall (c : ascii) (cs text : str) (f : UploadedFile) (index : Index)
          (p p1 p2 : P) (vectors : list (option vector)),
     storeAndRead (c :: cs) f p = (StoreText text, p1) ->
     chunkText text (CHUNK_LENGTH env) (Num 0) <> [] ->
     embedBatch embedder
       (prepare (originalname f) (c :: cs)
          (chunkText text (CHUNK_LENGTH env) (Num 0))) p1 = (vectors, p2) ->
     Forall (fun v => v = None) vectors ->
     uploadHandler env policy embedder storeAndRead (Some (c :: cs)) (Some f)
       index p =
     (Some (mkResponse 500
              (BError (lit "Failed to generate embeddings for file.")),
            index), p2)) /\
  (forall (rq : RechunkRequest) (docs : list Document) (index : Index)
          (p p1 p2 : P) (vectors : list (option vector)),
     js_truthy (rq_specificCategory rq) = false ->
     js_truthy (rq_specificFile rq) = false ->
     loadAllDocumentsWithCategory p = (Loaded docs, p1) ->
     docs <> [] ->
     let chunks :=
       chunkAllDocuments docs (rechunkLength env rq) (rechunkOverlap env rq) in
     embedBatch embedder chunks p1 = (vectors, p2) ->
     Forall (fun v => v = None) vectors ->
     rechunkHandler env policy embedder loadAllDocumentsWithCategory rq
       index p =
     (Some (mkResponse 200
              (BRechunk (lit "Rechunk completed") (length docs)
                 (length chunks) (rechunkLength env rq)
                 (rechunkOverlap env rq)),
            index), p2)).
Proof.
  split.
  - intros c cs text f index p p1 p2 vectors Hs Hc Hb Hv.
    unfold uploadHandler, bind. rewrite Hs.
    destruct text as [|t text'];
      [exfalso; apply Hc; now apply chunkText_blank|].
    cbn [truthy negb].
    destruct (chunkText (t :: text') (CHUNK_LENGTH env) (Num 0)) as [|x l]
      eqn:Hx; [now destruct Hc|].
    cbn [length Nat.eqb]. rewrite embedAllChunks_spec, Hb.
    now rewrite (pushEmbedded_none _ vectors Hv).
  - intros rq docs index p p1 p2 vectors Hc Hf Hl Hd chunks Hb Hv.
    unfold rechunkHandler, bind. rewrite Hl, Hc, Hf.
    destruct docs as [|d docs']; [now destruct Hd|].
    cbn [length Nat.eqb].
    fold chunks. rewrite embedAllChunks_spec, Hb.
    now rewrite (pushEmbedded_none _ vectors Hv).
Qed.

Lemma no_embedding_outcomes_witness :
  let env := mkEnv (JString (lit "20")) JUndefined in
  let docs := [mkDocument (lit "a.txt") (lit "finance")
                 (lit "Rates rose. Fees dropped.")] in
  rechunkHandler env Overwrite alwaysThrows (corpus docs) noParameters ∅ 0 =
  (Some (mkResponse 200
           (BRechunk (lit "Rechunk completed") 1 2 (Num 20) (Num 50)), ∅),
   2).
Proof.
  intros env docs.
  destruct (no_embedding_outcomes env Overwrite alwaysThrows
              (storeGiving []) (corpus docs)) as [_ H].
  apply (H noParameters docs ∅ 0 0 2 [None; None]);
    try reflexivity; [discriminate | repeat constructor].
Defined.


(** ** Further properties of [/prompt] *)

(** X10.  A question that is missing, [null], [false], 0, [NaN], empty
    or made of white space only is refused with status 400 and without
    any call of the embedder, the index or the generative model. *)
Theorem promptHandler_rejects {P : Type}
  (embedder : str -> Prov P ProviderResult)
  (query : vector -> Prov P QueryOutcome)
  (generate : str -> Prov P GenOutcome) (question : JsValue) (p : P) :
  js_truthy question = false \/
  (exists q, question = JString q /\ blank q = true) ->
  promptHandler embedder query generate question p =
  (mkResponse 400 (BError (lit "question is required")), p).
Proof.
  unfold promptHandler.
  intros [H|(q & -> & H)].
  - now rewrite H.
  - rewrite (trim_blank q H). cbn [js_truthy truthy negb].
    now destruct (truthy q).
Qed.

Lemma promptHandler_rejects_witness :
  promptHandler unitEmbedder emptyQuery (loggingGenerate None)
    (JString [space; newline]) [] =
  (mkResponse 400 (BError (lit "question is required")), []).
Proof.
  apply promptHandler_rejects. right.
  exists [space; newline]. split; reflexivity.
Defined.

Lemma buildContext_head (d : JsValue) (ds : list JsValue)
  (metas : list (option QueryMeta)) :
  exists rest,
    buildContext (d :: ds) metas = "S"%char :: rest /\
    firstn 8 (buildContext (d :: ds) metas) = lit "Source: ".
Proof.
  unfold buildContext. simpl imap. simpl concat.
  unfold contextBlock at 1. simpl.
  eexists. split; reflexivity.
Qed.

(** X11.  With at least one retrieved document the context is the
    concatenation of the blocks, which begins with ["Source: "]; the
    sentence ["No relevant documents found."] is the context exactly when
    no document was retrieved. *)
Theorem contextOf_found (docs : list JsValue)
  (metas : list (option QueryMeta)) :
  (docs <> [] ->
   contextOf docs metas = buildContext docs metas /\
   firstn 8 (contextOf docs metas) = lit "Source: ") /\
  (contextOf docs metas = noDocuments <-> docs = []).
Proof.
  assert (Hfound : docs <> [] ->
                   contextOf docs metas = buildContext docs metas /\
                   firstn 8 (contextOf docs metas) = lit "Source: ").
  { destruct docs as [|d ds]; [now intros []|]. intros _.
    destruct (buildContext_head d ds metas) as (rest & E & F).
    unfold contextOf. cbv zeta. rewrite E.
    rewrite trim_black by reflexivity. cbv iota.
    rewrite <- E. now split. }
  split; [exact Hfound|]. split.
  - intros Hs. destruct docs as [|d ds]; [reflexivity|].
    destruct Hfound as [_ Hf]; [discriminate|].
    rewrite Hs in Hf. discriminate Hf.
  - now intros ->.
Qed.

Lemma contextOf_found_witness :
  firstn 8 (contextOf [JString (lit "Rates rose.")] []) = lit "Source: ".
Proof.
  apply (contextOf_found [JString (lit "Rates rose.")] []). discriminate.
Defined.

(** ** [parseInt] on decimal numerals *)










(** ** Reading the files of the data directory *)

Lemma blank_trim_length (text : str) :
  (length (trim text) =? 0)%nat = false -> blank text = false.
Proof.
  intros H. destruct (blank text) eqn:Hb; [|reflexivity].
  rewrite (trim_blank text Hb) in H. discriminate.
Qed.

Lemma trimStart_nil_blank (s : str) : trimStart s = [] -> blank s = true.
Proof.
  induction s as [|c r IH]; simpl; [reflexivity|].
  destruct (isWhiteSpace c); [exact IH | discriminate].
Qed.

Lemma trim_nil_blank (s : str) : trim s = [] -> blank s = true.
Proof.
  intros H. destruct (trimStart_head s) as [E|(c & r & E & Hc)].
  - now apply trimStart_nil_blank.
  - unfold trim in H. rewrite E, trimEnd_cons_black in H by exact Hc.
    discriminate.
Qed.

Lemma orEmpty_cases (text : str) :
  orEmpty text = [] \/ (orEmpty text = text /\ blank text = false).
Proof.
  unfold orEmpty. destruct (truthy text); simpl; [|now left].
  destruct (length (trim text) =? 0)%nat eqn:H; simpl; [now left|].
  right. split; [reflexivity | now apply blank_trim_length].
Qed.

Section FilesFacts.

Variable extname : str -> str.
Variable toLowerCase : str -> str.
Variable join : str -> str -> str.
Variable readUtf8 : str -> ReadOutcome.
Variable parsePdf : str -> option str.
Variable rawTextOfDocx : str -> ReadOutcome.

Abbreviation readFile :=
  (readFileContent extname toLowerCase readUtf8 parsePdf rawTextOfDocx).
Abbreviation loadOne :=
  (loadEntry extname toLowerCase join readUtf8 parsePdf rawTextOfDocx).
Abbreviation loadAll :=
  (loadEntries extname toLowerCase join readUtf8 parsePdf rawTextOfDocx).

(** X13.  [readFileContent] by extension, compared in lower case: a
    [.txt] or [.md] file gives what the read gives, error included; a
    [.pdf] file never throws; the text of a [.pdf] or [.docx] file is
    empty or has something other than white space; any other file gives
    the empty text. *)
Theorem readFileContent_by_extension (filePath : str) :
  let ext := toLowerCase (extname filePath) in
  (ext = lit ".txt" \/ ext = lit ".md" ->
   readFile filePath = readUtf8 filePath) /\
  (ext = lit ".pdf" ->
   exists text, readFile filePath = ReadText text /\
                (text = [] \/ blank text = false)) /\
  (ext = lit ".docx" ->
   match rawTextOfDocx filePath with
   | ReadThrows message => readFile filePath = ReadThrows message
   | ReadText _ =>
       exists text, readFile filePath = ReadText text /\
                    (text = [] \/ blank text = false)
   end) /\
  (ext <> lit ".txt" -> ext <> lit ".md" -> ext <> lit ".pdf" ->
   ext <> lit ".docx" -> readFile filePath = ReadText []).
Proof.
  intros ext. unfold readFileContent. fold ext.
  repeat split.
  - intros [-> | ->]; reflexivity.
  - intros ->. simpl. eexists. split; [reflexivity|].
    destruct (orEmpty_cases (extractPdfText parsePdf filePath)) as [->|[-> H]];
      auto.
  - intros ->. simpl. destruct (rawTextOfDocx filePath) as [m|value];
      [reflexivity|].
    eexists. split; [reflexivity|].
    destruct (orEmpty_cases value) as [->|[-> H]]; auto.
  - intros H1 H2 H3 H4.
    rewrite !bool_decide_eq_false_2 by assumption. reflexivity.
Qed.

(** Induction on a directory tree. *)
Lemma Entry_nested_ind (Q : Entry -> Prop) :
  (forall name, Q (FileEntry name)) ->
  (forall name failure entries,
     Forall Q entries -> Q (DirEntry name failure entries)) ->
  forall entry, Q entry.
Proof.
  intros Hf Hd. fix IH 1. intros [name|name failure entries]; [apply Hf|].
  apply Hd. induction entries as [|e rest IHrest]; constructor;
    [apply IH | exact IHrest].
Qed.

(** The loop over the listing of a subdirectory is
    [loadAllDocumentsWithCategory] on that listing. *)
Lemma loadEntry_directory (dir category name : str) (failure : option str)
  (entries : list Entry) :
  loadOne dir category (DirEntry name failure entries) =
  match failure with
  | Some message => LoadThrows message
  | None => loadAll (join dir name) (subCategoryOf category name) entries
  end.
Proof.
  cbn [loadEntry entryName]. destruct failure as [m|]; [reflexivity|].
  induction entries as [|e rest IH]; [reflexivity|].
  cbn [loadEntries]. rewrite IH. reflexivity.
Qed.

Lemma subCategoryOf_prefix (category name : str) :
  category `prefix_of` subCategoryOf category name.
Proof.
  unfold subCategoryOf. destruct category as [|c cs]; simpl.
  - apply prefix_nil.
  - now exists (slash :: name).
Qed.

Lemma loadEntry_loaded (entry : Entry) :
  forall dir category docs,
    loadOne dir category entry = Loaded docs ->
    Forall (loadedFrom category) docs.
Proof.
  induction entry as [name|name failure entries IH] using Entry_nested_ind;
    intros dir category docs.
  - cbn [loadEntry entryName].
    destruct (readFile (join dir name)) as [m|text]; [discriminate|].
    destruct (truthy text) eqn:Ht; cbn [negb orb];
      [|intros [= <-]; constructor].
    destruct (length (trim text) =? 0)%nat eqn:Hl;
      intros [= <-]; constructor; [|constructor].
    split; [now apply blank_trim_length | reflexivity].
  - rewrite loadEntry_directory.
    destruct failure as [m|]; [discriminate|].
    generalize (join dir name). intros dir'. revert docs.
    induction IH as [|e rest He _ IHrest]; intros docs; cbn [loadEntries].
    + intros [= <-]. constructor.
    + destruct (loadOne dir' (subCategoryOf category name) e)
        as [m|docs1] eqn:H1; [discriminate|].
      destruct (loadAll dir' (subCategoryOf category name) rest)
        as [m|docs2] eqn:H2; [discriminate|].
      intros [= <-]. apply Forall_app. split.
      * apply He in H1. eapply Forall_impl; [exact H1|].
        intros d [Hb Hp]. split; [exact Hb|].
        etransitivity; [apply subCategoryOf_prefix | exact Hp].
      * now apply IHrest.
Qed.

(** X14.  When [loadAllDocumentsWithCategory] returns, no document it
    returns is empty or made of white space only, every category begins
    with the category the call started from, and a document from a file
    of the listing itself has exactly that category. *)
Theorem loadEntries_loaded (dir category : str) (entries : list Entry)
  (docs : list Document) :
  loadAll dir category entries = Loaded docs ->
  Forall (loadedFrom category) docs /\
  (forall name text,
     In (FileEntry name) entries ->
     readFile (join dir name) = ReadText text ->
     blank text = false ->
     In (mkDocument name category text) docs).
Proof.
  revert docs. induction entries as [|e rest IH]; intros docs;
    cbn [loadEntries].
  - intros [= <-]. split; [constructor | intros ? ? []].
  - destruct (loadOne dir category e) as [m|docs1] eqn:H1; [discriminate|].
    destruct (loadAll dir category rest) as [m|docs2] eqn:H2; [discriminate|].
    intros [= <-]. destruct (IH docs2 eq_refl) as [IHa IHb]. split.
    + apply Forall_app. split; [|exact IHa].
      now apply (loadEntry_loaded e dir category).
    + intros name text [->|Hin] Hr Hb; apply in_or_app.
      * left. cbn [loadEntry entryName] in H1. rewrite Hr in H1.
        assert (Ht : truthy text = true) by (destruct text; [discriminate|reflexivity]).
        assert (Hl : (length (trim text) =? 0)%nat = false).
        { destruct (length (trim text) =? 0)%nat eqn:Hl; [|reflexivity].
          apply Nat.eqb_eq, length_zero_iff_nil, trim_nil_blank in Hl.
          congruence. }
        rewrite Ht, Hl in H1. cbn [negb orb] in H1.
        injection H1 as <-. now left.
      * right. now apply (IHb name text).
Qed.

End FilesFacts.

Lemma readFileContent_by_extension_witness :
  readFileContent (fun _ => lit ".TXT") (fun _ => lit ".txt") sampleRead
    (fun _ => None) (fun _ => ReadThrows []) (lit "data/NOTES.TXT") =
  ReadText (lit "Rates rose.").
Proof.
  destruct (readFileContent_by_extension (fun _ => lit ".TXT")
              (fun _ => lit ".txt") sampleRead (fun _ => None)
              (fun _ => ReadThrows []) (lit "data/NOTES.TXT")) as [H _].
  rewrite H; [reflexivity|]. left. reflexivity.
Defined.

Lemma loadEntries_loaded_witness :
  let docs :=
    [mkDocument (lit "a.txt") (lit "finance") (lit "Rates rose.")] in
  Forall (loadedFrom []) docs.
Proof.
  intros docs.
  destruct (loadEntries_loaded (fun _ => lit ".txt") (fun s => s) sampleJoin
              sampleRead (fun _ => None) (fun _ => ReadThrows [])
              (lit "data") [] sampleListing docs) as [H _];
    [vm_compute; reflexivity | exact H].
Defined.
